(** * The tool execution engine of chanAI ([pkg/tool])

    A shallow embedding of the executor ([Executor.Execute],
    [Executor.ExecuteBatch], [isRetryable], [approved]), of input
    validation ([ValidateInput]) and of the registry ([Registry.Create]),
    followed by the properties the specification states about them.

    The sources hold two revisions of the executor; the embedding follows
    the full one, with the approval gate and priority-ordered batches.

    Conventions.
    - Go's [int], [time.Duration] and clock readings are [Z]; the one
      addition of the executor that can leave the 64-bit range is wrapped
      explicitly ([wrap64]).
    - [map[string]any] is a [gmap string Value]; a nil map and an empty
      map answer every lookup alike, so both are the empty [gmap], except
      for the input schema, whose nil case the code tests.
    - A nullable [error] is an [option error]; a nullable pointer is an
      [option].
    - What an execution observes from outside (the clock, the outcome of
      the two [select] statements, what the tool returns at each attempt)
      is a [World]; what it does to the outside (semaphore operations,
      calls of the tool, backoff waits) is the list of [Event]s it emits. *)

From Stdlib Require Import ZArith Lia Permutation Sorted.
From stdpp Require Import base gmap strings list sorting.

Set Warnings "-register-all".
Local Open Scope Z_scope.

(** ** Values, errors, time *)

(** Go's [any], as far as the engine inspects it: the dynamic types that
    the type assertions of [ValidateInput] and [approved] distinguish. *)
Inductive Value : Type :=
| VNil
| VBool (b : bool)
| VInt (n : Z)
| VString (s : string)
| VStrings (l : list string)          (* []string *)
| VSlice (l : list Value)             (* []any *)
| VMap (m : list (string * Value)).   (* map[string]any *)

(** Go's [error] values met by the engine: errors made by [fmt.Errorf] or
    by the [context] package, which are their message, and the registry's
    typed [*ToolNotFoundError]. *)
Inductive error : Type :=
| errorString (msg : string)
| ToolNotFoundError (name : string).

(** [err.Error()]. *)
Definition Error_ (e : error) : string :=
  match e with
  | errorString msg => msg
  | ToolNotFoundError name => "tool not found: " +:+ name
  end.

Abbreviation Duration := Z (only parsing).
Abbreviation Time := Z (only parsing).

Definition Second : Duration := 1000000000.
Definition minDuration : Duration := - 2 ^ 63.
Definition maxDuration : Duration := 2 ^ 63 - 1.

(** [t.Sub(u)]: the difference, saturated to the range of [Duration]. *)
Definition Sub (t u : Time) : Duration :=
  Z.max minDuration (Z.min maxDuration (t - u)).

(** Two's complement wrap-around of Go's 64-bit [int]. *)
Definition wrap64 (x : Z) : Z := (x + 2 ^ 63) mod 2 ^ 64 - 2 ^ 63.

(** ** Tools *)

(** [RetryPolicy].  [BackoffMultiplier] (a float64) only enters
    [calculateBackoff], whose value decides no branch; it is left out. *)
Record RetryPolicy : Type := {
  MaxRetries : Z;
  InitialBackoff : Duration;
  MaxBackoff : Duration;
  RetryableErrors : list string
}.

(** The methods [EnhancedTool] adds to [Tool]. *)
Record EnhancedTool : Type := {
  IsLongRunning : bool;
  Timeout : Duration;
  Priority : Z;
  RequiresApproval : bool;
  RetryPolicyOf : option RetryPolicy      (* RetryPolicy(); nil = no retries *)
}.

(** A [Tool]: its getters, and [enhanced], the outcome of the type
    assertion [tool.(EnhancedTool)] ([None] when the assertion fails).
    What [Execute] returns is not a field: it may depend on anything, and
    is given per attempt by the [World]. *)
Record Tool : Type := {
  Name : string;
  Description : string;
  InputSchema : option (gmap string Value);
  Prompt : string;
  enhanced : option EnhancedTool
}.

(** [ToolContext] (the logger, storage and context handles play no part). *)
Record ToolContext : Type := {
  AgentID : string;
  SessionID : string;
  ExecutionID : string;
  Metadata : gmap string Value
}.

(** ** Input validation ([ValidateInput]) *)

(** The [required] list the code extracts from a schema: a [[]string] as
    it is, the strings of a [[]any], nothing otherwise. *)
Definition required_fields (schema : gmap string Value) : list string :=
  match schema !! "required" with
  | Some (VStrings required) => required
  | Some (VSlice raw) =>
      omap (fun v => match v with VString s => Some s | _ => None end) raw
  | _ => []
  end.

(** The loop over [required]: the first field missing from [input]. *)
Fixpoint check_required (required : list string) (input : gmap string Value)
  : option error :=
  match required with
  | [] => None
  | field :: rest =>
      match input !! field with
      | None => Some (errorString ("missing required field: " +:+ field))
      | Some _ => check_required rest input
      end
  end.

Definition ValidateInput (tool : Tool) (input : gmap string Value)
  : option error :=
  match InputSchema tool with
  | None => None
  | Some schema => check_required (required_fields schema) input
  end.

(** ** The executor *)

Record ExecutorConfig : Type := {
  MaxConcurrency : Z;
  DefaultTimeout : Duration
}.

(** An [Executor]: its configuration and the capacity of its semaphore
    channel (the channel's contents are shared state, see [Sys]). *)
Record Executor : Type := {
  config : ExecutorConfig;
  semaphore_cap : Z
}.

Definition NewExecutor (cfg : ExecutorConfig) : Executor :=
  let mc := if MaxConcurrency cfg <=? 0 then 5 else MaxConcurrency cfg in
  let dt := if DefaultTimeout cfg <=? 0 then 60 * Second else DefaultTimeout cfg in
  {| config := {| MaxConcurrency := mc; DefaultTimeout := dt |};
     semaphore_cap := mc |}.

Record ExecuteRequest : Type := {
  ReqTool : Tool;                       (* Tool *)
  Input : gmap string Value;
  Context : option ToolContext;
  TimeoutOverride : Duration
}.

Record ExecuteResult : Type := {
  Success : bool;
  Output : Value;
  Error : option error;
  Duration_ : Duration;                 (* Duration *)
  StartedAt : Time;
  FinishedAt : Time;
  Attempts : Z;
  LongRunning : bool
}.

(** [strings.HasPrefix] and [strings.Contains], on byte strings. *)
Fixpoint HasPrefix (s prefix : string) {struct prefix} : bool :=
  match prefix, s with
  | EmptyString, _ => true
  | String c prefix', String d s' => Ascii.eqb c d && HasPrefix s' prefix'
  | String _ _, EmptyString => false
  end.

Fixpoint Contains (s substr : string) : bool :=
  HasPrefix s substr ||
  match s with
  | EmptyString => false
  | String _ s' => Contains s' substr
  end.

Definition isRetryable (err : error) (policy : option RetryPolicy) : bool :=
  match policy with
  | None => true
  | Some p =>
      match RetryableErrors p with
      | [] => true
      | patterns => existsb (Contains (Error_ err)) patterns
      end
  end.

Definition approved (tc : option ToolContext) : bool :=
  match tc with
  | None => false
  | Some c =>
      match Metadata c !! "approved" with
      | Some (VBool v) => v
      | _ => false
      end
  end.

(** Step 3 of [Execute]: the locals [timeout], [retryPolicy],
    [longRunning], [requiresApproval] after the request override. *)
Record Resolved : Type := {
  timeout : Duration;
  retryPolicy : option RetryPolicy;
  longRunning : bool;
  requiresApproval : bool
}.

Definition resolve (e : Executor) (req : ExecuteRequest) : Resolved :=
  let timeout0 := DefaultTimeout (config e) in
  let r :=
    match enhanced (ReqTool req) with
    | Some et =>
        let timeout1 := if 0 <? Timeout et then Timeout et else timeout0 in
        let timeout2 :=
          if IsLongRunning et && (Timeout et =? 0) && (TimeoutOverride req =? 0)
          then 0 else timeout1 in
        {| timeout := timeout2; retryPolicy := RetryPolicyOf et;
           longRunning := IsLongRunning et;
           requiresApproval := RequiresApproval et |}
    | None =>
        {| timeout := timeout0; retryPolicy := None;
           longRunning := false; requiresApproval := false |}
    end in
  {| timeout := if 0 <? TimeoutOverride req then TimeoutOverride req else timeout r;
     retryPolicy := retryPolicy r;
     longRunning := longRunning r;
     requiresApproval := requiresApproval r |}.

(** The per-attempt context: [context.WithTimeout(ctx, timeout)] when
    [timeout > 0], the caller's context alone otherwise. *)
Definition attempt_deadline (timeout : Duration) : option Duration :=
  if 0 <? timeout then Some timeout else None.

(** [maxAttempts := 1; if retryPolicy != nil { maxAttempts += MaxRetries }]. *)
Definition maxAttemptsOf (policy : option RetryPolicy) : Z :=
  match policy with
  | None => 1
  | Some p => wrap64 (1 + MaxRetries p)
  end.

(** What one call of [Execute] observes. *)
Record World : Type := {
  now_start : Time;                     (* time.Now() on entry *)
  now_end : Time;                       (* time.Now() before returning *)
  (* the first select: [None] when the send on the semaphore is taken,
     [Some err] when [ctx.Done()] is taken, [err] being [ctx.Err()] *)
  slot_wait : option error;
  (* what [req.Tool.Execute] returns at the attempt of the given index *)
  tool_Execute : Z -> Value * option error;
  (* the select after the failed attempt of the given index: [None] when
     the timer fires, [Some err] when [ctx.Done()] does *)
  backoff_wait : Z -> option error
}.

(** What one call of [Execute] does. *)
Inductive Event : Type :=
| EvAcquire                             (* e.semaphore <- struct{}{} *)
| EvRelease                             (* the deferred <-e.semaphore *)
| EvCall (attempt : Z) (deadline : option Duration)
                                        (* req.Tool.Execute is entered *)
| EvReturn (attempt : Z)                (* req.Tool.Execute returns *)
| EvBackoff (attempt : Z).              (* wait of calculateBackoff(attempt, policy) *)

(** The locals [output], [execErr], [attempts] of the attempt loop. *)
Record LoopState : Type := {
  output : Value;
  execErr : option error;
  attempts : Z
}.

(** The attempt loop, by recursion on the iterations left: the loop
    counter is [attempt = maxAttempts - remaining].  The result is the
    state on reaching [Finish] and the events emitted. *)
Fixpoint attemptLoop (w : World) (policy : option RetryPolicy)
    (deadline : option Duration) (maxAttempts : Z)
    (remaining : nat) (st : LoopState) : LoopState * list Event :=
  match remaining with
  | O => (st, [])
  | S remaining' =>
      let attempt := maxAttempts - Z.of_nat remaining in
      let '(out, err) := tool_Execute w attempt in
      let st1 := {| output := out; execErr := err; attempts := attempt + 1 |} in
      let call := [EvCall attempt deadline; EvReturn attempt] in
      match err with
      | None => (st1, call)
      | Some e =>
          if attempt <? maxAttempts - 1 then
            if negb (isRetryable e policy) then (st1, call)
            else
              match backoff_wait w attempt with
              | None =>
                  let '(st2, tr) :=
                    attemptLoop w policy deadline maxAttempts remaining' st1 in
                  (st2, call ++ EvBackoff attempt :: tr)
              | Some cerr =>
                  ({| output := out; execErr := Some cerr;
                      attempts := attempt + 1 |},
                   call ++ [EvBackoff attempt])
              end
          else
            let '(st2, tr) :=
              attemptLoop w policy deadline maxAttempts remaining' st1 in
            (st2, call ++ tr)
      end
  end.

Definition is_nil (e : option error) : bool :=
  match e with None => true | Some _ => false end.

(** [Execute] from the validation step on: the slot is held. *)
Definition executeHolding (e : Executor) (w : World) (req : ExecuteRequest)
  : ExecuteResult * list Event :=
  let start := now_start w in
  match ValidateInput (ReqTool req) (Input req) with
  | Some err =>
      ({| Success := false; Output := VNil; Error := Some err; Duration_ := 0;
          StartedAt := start; FinishedAt := now_end w;
          Attempts := 0; LongRunning := false |}, [])
  | None =>
      let r := resolve e req in
      if requiresApproval r && negb (approved (Context req)) then
        let err := errorString
          ("tool " +:+ Name (ReqTool req) +:+ " requires approval before execution") in
        let end_ := now_end w in
        ({| Success := false; Output := VNil; Error := Some err;
            Duration_ := Sub end_ start;
            StartedAt := start; FinishedAt := end_;
            Attempts := 0; LongRunning := false |}, [])
      else
        let maxAttempts := maxAttemptsOf (retryPolicy r) in
        let '(st, tr) :=
          attemptLoop w (retryPolicy r) (attempt_deadline (timeout r))
            maxAttempts (Z.to_nat maxAttempts)
            {| output := VNil; execErr := None; attempts := 0 |} in
        let end_ := now_end w in
        ({| Success := is_nil (execErr st); Output := output st;
            Error := execErr st; Duration_ := Sub end_ start;
            StartedAt := start; FinishedAt := end_;
            Attempts := attempts st; LongRunning := longRunning r |}, tr)
  end.

(** [Executor.Execute]: the result and the events of the call. *)
Definition Execute (e : Executor) (w : World) (req : ExecuteRequest)
  : ExecuteResult * list Event :=
  match slot_wait w with
  | Some err =>
      ({| Success := false; Output := VNil; Error := Some err; Duration_ := 0;
          StartedAt := now_start w; FinishedAt := now_end w;
          Attempts := 0; LongRunning := false |}, [])
  | None =>
      let '(res, body) := executeHolding e w req in
      (res, EvAcquire :: body ++ [EvRelease])
  end.

(** The number of times the tool's [Execute] is entered. *)
Definition is_call (ev : Event) : bool :=
  match ev with EvCall _ _ => true | _ => false end.

Fixpoint invocations (tr : list Event) : nat :=
  match tr with
  | [] => 0
  | ev :: tr' => ((if is_call ev then 1 else 0) + invocations tr')%nat
  end.

(** The attempt index an event carries. *)
Definition ev_index (ev : Event) : option Z :=
  match ev with
  | EvCall k _ | EvReturn k | EvBackoff k => Some k
  | EvAcquire | EvRelease => None
  end.

(** The outcome at attempt [k] ends the loop whatever the attempts left:
    a success, or an error the policy does not retry. *)
Definition stops_at (w : World) (policy : option RetryPolicy) (k : Z) : Prop :=
  match snd (tool_Execute w k) with
  | None => True
  | Some e => isRetryable e policy = false
  end.

(** The effective timeout in the specification's words: unbounded (0)
    for a long-running tool that declares no timeout and receives no
    override; otherwise the request's override when positive; otherwise
    the extended contract's [Timeout()] when positive; otherwise the
    engine default [dflt]. *)
Definition spec_timeout (dflt : Duration) (req : ExecuteRequest) : Duration :=
  let unbounded :=
    match enhanced (ReqTool req) with
    | Some et => IsLongRunning et && (Timeout et =? 0) && (TimeoutOverride req =? 0)
    | None => false
    end in
  if unbounded then 0
  else if 0 <? TimeoutOverride req then TimeoutOverride req
  else
    match enhanced (ReqTool req) with
    | Some et => if 0 <? Timeout et then Timeout et else dflt
    | None => dflt
    end.

(** ** Batches ([Executor.ExecuteBatch]) *)

Record prioritized : Type := {
  idx : nat;
  req : ExecuteRequest;
  priority : Z
}.

(** [p := 0; if et, ok := req.Tool.(EnhancedTool); ok { p = et.Priority() }]. *)
Definition priorityOf (t : Tool) : Z :=
  match enhanced t with
  | Some et => Priority et
  | None => 0
  end.

(** The [items] slice before sorting, built by the loop over
    [requests]; [i] is the index of the first request left. *)
Fixpoint prioritize_from (i : nat) (requests : list ExecuteRequest)
  : list prioritized :=
  match requests with
  | [] => []
  | r :: rest =>
      {| idx := i; req := r; priority := priorityOf (ReqTool r) |}
      :: prioritize_from (S i) rest
  end.

Definition prioritize (requests : list ExecuteRequest) : list prioritized :=
  prioritize_from 0 requests.

(** [sort.SliceStable(items, less)]: insertion sort that puts an element
    before the first one not strictly [less] than it, hence before its
    equals to the right.  For a [less] that is a strict weak order every
    stable sort returns this list. *)
Fixpoint insert_stable {A} (less : A -> A -> bool) (x : A) (l : list A)
  : list A :=
  match l with
  | [] => [x]
  | y :: l' => if less y x then y :: insert_stable less x l' else x :: l
  end.

Fixpoint SliceStable {A} (less : A -> A -> bool) (l : list A) : list A :=
  match l with
  | [] => []
  | x :: l' => insert_stable less x (SliceStable less l')
  end.

(** [items[i].priority > items[j].priority]. *)
Definition less_priority (a b : prioritized) : bool :=
  priority b <? priority a.

(** The order in which the goroutines are started. *)
Definition dispatch (requests : list ExecuteRequest) : list prioritized :=
  SliceStable less_priority (prioritize requests).



(** ** The admission pool shared by concurrent calls *)

(** A goroutine inside [Execute]: the events it has still to perform, the
    semaphore slots it holds, and whether it is inside the tool. *)
Record Thread : Type := {
  pending : list Event;
  held : nat;
  running : bool
}.

(** The executor's shared state, [len(e.semaphore)], and the goroutines. *)
Record Sys : Type := {
  sem : nat;
  threads : list Thread
}.

(** The next event of a goroutine, when the semaphore lets it happen: a
    send blocks on a full channel, a receive on an empty one. *)
Definition thread_step (cap : Z) (n : nat) (t : Thread) : option (nat * Thread) :=
  match pending t with
  | [] => None
  | EvAcquire :: rest =>
      if Z.of_nat n <? cap
      then Some (S n, {| pending := rest; held := S (held t); running := running t |})
      else None
  | EvRelease :: rest =>
      match n with
      | O => None
      | S n' =>
          Some (n', {| pending := rest; held := pred (held t); running := running t |})
      end
  | EvCall _ _ :: rest =>
      Some (n, {| pending := rest; held := held t; running := true |})
  | EvReturn _ :: rest =>
      Some (n, {| pending := rest; held := held t; running := false |})
  | EvBackoff _ :: rest =>
      Some (n, {| pending := rest; held := held t; running := running t |})
  end.

(** Interleaving: any goroutine whose next event is enabled takes it. *)
Inductive step (cap : Z) : Sys -> Sys -> Prop :=
| step_thread s i t n' t' :
    threads s !! i = Some t ->
    thread_step cap (sem s) t = Some (n', t') ->
    step cap s {| sem := n'; threads := <[i := t']> (threads s) |}.

(** The calls submitted to one executor, each with the world it runs in. *)
Definition spawn_thread (e : Executor) (job : World * ExecuteRequest) : Thread :=
  {| pending := snd (Execute e (fst job) (snd job)); held := 0; running := false |}.

Definition spawn (e : Executor) (jobs : list (World * ExecuteRequest)) : Sys :=
  {| sem := 0; threads := spawn_thread e <$> jobs |}.

(** Tool executions in flight, and slots held over all goroutines. *)
Fixpoint in_flight (ts : list Thread) : nat :=
  match ts with
  | [] => 0
  | t :: ts' => ((if running t then 1 else 0) + in_flight ts')%nat
  end.

Fixpoint slots_held (ts : list Thread) : nat :=
  match ts with
  | [] => 0
  | t :: ts' => (held t + slots_held ts')%nat
  end.

(** The part of a call between acquiring and releasing the slot: calls of
    the tool and their returns alternate, starting from [inside]. *)
Fixpoint body_ok (inside : bool) (body : list Event) : bool :=
  match body with
  | [] => negb inside
  | EvCall _ _ :: b => negb inside && body_ok true b
  | EvReturn _ :: b => inside && body_ok false b
  | EvBackoff _ :: b => negb inside && body_ok false b
  | EvAcquire :: _ | EvRelease :: _ => false
  end.

(** ** The registry ([Registry.Create]) *)

(** [ToolFactory]: from a configuration (possibly nil) to a tool and an
    error, either of which may be nil. *)
Definition ToolFactory : Type :=
  option (gmap string Value) -> option Tool * option error.

Record Registry : Type := {
  factories : gmap string ToolFactory;
  instances : gmap string Tool
}.

Definition NewRegistry : Registry := {| factories := ∅; instances := ∅ |}.

Definition RegisterFactory (name : string) (factory : ToolFactory)
    (r : Registry) : Registry :=
  {| factories := <[name := factory]> (factories r); instances := instances r |}.

Definition RegisterInstance (t : Tool) (r : Registry) : Registry :=
  {| factories := factories r; instances := <[Name t := t]> (instances r) |}.

(** [Create]: what it returns, and the registry afterwards. *)
Definition Create (r : Registry) (name : string)
    (config : option (gmap string Value))
  : (option Tool * option error) * Registry :=
  match factories r !! name with
  | Some factory => (factory config, r)
  | None =>
      match instances r !! name with
      | Some instance => ((Some instance, None), r)
      | None => ((None, Some (ToolNotFoundError name)), r)
      end
  end.

(** ** Vocabulary of the properties *)

(** The retry policy of a tool: [RetryPolicy()] of the extended contract,
    none for a plain [Tool]. *)
Definition toolRetryPolicy (t : Tool) : option RetryPolicy :=
  match enhanced t with
  | Some et => RetryPolicyOf et
  | None => None
  end.

(** [RequiresApproval()] of the extended contract, false for a plain [Tool]. *)
Definition toolRequiresApproval (t : Tool) : bool :=
  match enhanced t with
  | Some et => RequiresApproval et
  | None => false
  end.

(** The call gets past admission, validation and the approval gate, into
    the attempt loop. *)
Definition attempted (e : Executor) (w : World) (req : ExecuteRequest) : bool :=
  is_nil (slot_wait w) &&
  is_nil (ValidateInput (ReqTool req) (Input req)) &&
  negb (requiresApproval (resolve e req) && negb (approved (Context req))).

(** A field listed in the schema's [required] sequence is absent from
    the input. *)
Definition missing_required (tool : Tool) (input : gmap string Value) : Prop :=
  exists schema field,
    InputSchema tool = Some schema /\
    field ∈ required_fields schema /\
    input !! field = None.

(** The execution context carries [Metadata["approved"]] as the boolean
    [true]. *)
Definition approval_granted (tc : option ToolContext) : Prop :=
  exists c, tc = Some c /\ Metadata c !! "approved" = Some (VBool true).

(** The three ways a call ends before any attempt. *)
Definition short_circuit (w : World) (req : ExecuteRequest) : Prop :=
  is_Some (slot_wait w) \/
  missing_required (ReqTool req) (Input req) \/
  (toolRequiresApproval (ReqTool req) = true /\ ~ approval_granted (Context req)).


#[global] Instance Event_eq_dec : EqDecision Event.
Proof. solve_decision. Defined.

(** The goroutine is between acquiring its slot and releasing it: the
    release is still to come, the acquisition is not. *)
Definition holds_slot (t : Thread) : bool :=
  bool_decide (EvRelease ∈ pending t /\ EvAcquire ∉ pending t).

(** What every goroutine of a reachable state looks like: either it holds
    no slot and is outside the tool, with its whole call or nothing left
    to do; or it holds one slot and is somewhere in the body of its call. *)
Definition thread_ok (t : Thread) : Prop :=
  (held t = 0%nat /\ running t = false /\
   (pending t = [] \/
    exists body, pending t = EvAcquire :: body ++ [EvRelease] /\
                 body_ok false body = true)) \/
  (held t = 1%nat /\
   exists body, pending t = body ++ [EvRelease] /\
                body_ok (running t) body = true).

(** The invariant of the reachable states. *)
Definition pool_inv (e : Executor) (jobs : list (World * ExecuteRequest))
    (s : Sys) : Prop :=
  sem s = slots_held (threads s) /\
  Z.of_nat (sem s) <= semaphore_cap e /\
  Forall thread_ok (threads s) /\
  (forall i t, threads s !! i = Some t ->
     exists job, jobs !! i = Some job /\
                 pending t `suffix_of` (Execute e job.1 job.2).2).

(** [sub] occurs in [s]. *)
Definition substring_of (sub s : string) : Prop :=
  exists pre post, s = pre +:+ sub +:+ post.

(** ** Sample tools, requests and worlds

    Concrete inputs at which the properties below are instantiated. *)

Definition Millisecond : Duration := 1000000.

(** [NewExecutor(ExecutorConfig{})]: every default. *)
Definition default_executor : Executor :=
  NewExecutor {| MaxConcurrency := 0; DefaultTimeout := 0 |}.

(** [DefaultRetryPolicy()] with one retryable pattern. *)
Definition timeout_policy : RetryPolicy :=
  {| MaxRetries := 3; InitialBackoff := 100 * Millisecond;
     MaxBackoff := 5 * Second; RetryableErrors := ["timeout"] |}.

(** A tool built on [BaseTool] ([NewBaseTool]'s 30 s timeout), with a
    freeform schema that requires the field [input]. *)
Definition base_tool (name : string) (approval : bool)
    (policy : option RetryPolicy) : Tool :=
  {| Name := name; Description := "sample";
     InputSchema := Some {[ "type" := VString "object";
                            "required" := VStrings ["input"] ]};
     Prompt := "";
     enhanced := Some {| IsLongRunning := false; Timeout := 30 * Second;
                         Priority := 0; RequiresApproval := approval;
                         RetryPolicyOf := policy |} |}.

(** A tool that only implements [Tool]. *)
Definition plain_tool : Tool :=
  {| Name := "plain"; Description := "sample"; InputSchema := None;
     Prompt := ""; enhanced := None |}.

Definition request (t : Tool) (input : gmap string Value)
    (tc : option ToolContext) : ExecuteRequest :=
  {| ReqTool := t; Input := input; Context := tc; TimeoutOverride := 0 |}.

Definition some_input : gmap string Value := {[ "input" := VString "hello" ]}.

(** A world in which the slot is free, the tool fails with a timeout at
    its first [failures] attempts and succeeds afterwards, no backoff wait
    is interrupted, and the call takes 5 µs. *)
Definition flaky_world (failures : Z) : World :=
  {| now_start := 1000; now_end := 6000; slot_wait := None;
     tool_Execute := fun k =>
       if k <? failures then (VNil, Some (errorString "i/o timeout"))
       else (VString "done", None);
     backoff_wait := fun _ => None |}.

(** The same, the caller's context being cancelled during admission. *)
Definition cancelled_world : World :=
  {| now_start := 1000; now_end := 6000;
     slot_wait := Some (errorString "context canceled");
     tool_Execute := fun _ => (VString "done", None);
     backoff_wait := fun _ => None |}.

(** A world in which the slot is free and the tool fails at every attempt
    with an error no sample policy retries. *)
Definition denied_world : World :=
  {| now_start := 1000; now_end := 6000; slot_wait := None;
     tool_Execute := fun _ => (VNil, Some (errorString "permission denied"));
     backoff_wait := fun _ => None |}.

(** An executor configured with a default timeout of 10 s. *)
Definition ten_second_executor : Executor :=
  NewExecutor {| MaxConcurrency := 2; DefaultTimeout := 10 * Second |}.

(** A tool of the given priority, with no schema. *)
Definition priority_tool (name : string) (p : Z) : Tool :=
  {| Name := name; Description := "sample"; InputSchema := None; Prompt := "";
     enhanced := Some {| IsLongRunning := false; Timeout := 0; Priority := p;
                         RequiresApproval := false; RetryPolicyOf := None |} |}.

(** A batch whose dispatch order differs from its input order. *)
Definition sample_batch : list ExecuteRequest :=
  [ request plain_tool ∅ None;
    request (priority_tool "urgent" 5) ∅ None;
    request (priority_tool "normal" 0) ∅ None ].

(** An executor with a single slot, three calls submitted to it (the
    third one cancelled while queued), and the state in which the first
    call is inside the tool. *)
Definition single_slot_executor : Executor :=
  NewExecutor {| MaxConcurrency := 1; DefaultTimeout := 0 |}.

Definition sample_jobs : list (World * ExecuteRequest) :=
  [ (flaky_world 0, request plain_tool ∅ None);
    (flaky_world 0, request plain_tool ∅ None);
    (cancelled_world, request plain_tool ∅ None) ].

Definition sample_acquired : Sys :=
  {| sem := 1;
     threads :=
       [ {| pending := [EvCall 0 (Some (60 * Second)); EvReturn 0; EvRelease];
            held := 1; running := false |};
         spawn_thread single_slot_executor (flaky_world 0, request plain_tool ∅ None);
         spawn_thread single_slot_executor (cancelled_world, request plain_tool ∅ None) ] |}.

Definition sample_running : Sys :=
  {| sem := 1;
     threads :=
       [ {| pending := [EvReturn 0; EvRelease]; held := 1; running := true |};
         spawn_thread single_slot_executor (flaky_world 0, request plain_tool ∅ None);
         spawn_thread single_slot_executor (cancelled_world, request plain_tool ∅ None) ] |}.

(** A registry whose factory for ["ghost"] reports that very tool as not
    found (as a factory delegating to another registry would). *)
Definition ghost_factory : ToolFactory :=
  fun _ => (None, Some (ToolNotFoundError "ghost")).

Definition ghost_registry : Registry :=
  RegisterFactory "ghost" ghost_factory NewRegistry.

(** ** Further vocabulary and sample data *)

(** The number of backoff waits entered. *)
Fixpoint waits (tr : list Event) : nat :=
  match tr with
  | [] => 0
  | EvBackoff _ :: tr' => S (waits tr')
  | _ :: tr' => waits tr'
  end.

(** A world in which the tool times out at its first attempt and the
    caller's context is cancelled during the backoff wait that follows. *)
Definition interrupted_world : World :=
  {| now_start := 1000; now_end := 6000; slot_wait := None;
     tool_Execute := fun _ => (VString "partial", Some (errorString "i/o timeout"));
     backoff_wait := fun _ => Some (errorString "context canceled") |}.

(** A retry policy whose [MaxRetries] is negative. *)
Definition negative_policy : RetryPolicy :=
  {| MaxRetries := -1; InitialBackoff := 100 * Millisecond;
     MaxBackoff := 5 * Second; RetryableErrors := [] |}.

(** The events the goroutines have still to perform. *)
Fixpoint work (ts : list Thread) : nat :=
  match ts with
  | [] => 0
  | t :: ts' => (length (pending t) + work ts')%nat
  end.

(** ** The registry, continued ([Get], [Remove], [List], [Find]) *)

(** [Remove]: both registrations of [name] are deleted. *)
Definition Remove (name : string) (r : Registry) : Registry :=
  {| factories := delete name (factories r);
     instances := delete name (instances r) |}.

(** [Get]: the instance when there is one; otherwise what the factory
    makes from a nil configuration, provided it reports no error. *)
Definition Get (r : Registry) (name : string) : option Tool * bool :=
  match instances r !! name with
  | Some t => (Some t, true)
  | None =>
      match factories r !! name with
      | Some factory =>
          match factory None with
          | (t, None) => (t, true)
          | (_, Some _) => (None, false)
          end
      | None => (None, false)
      end
  end.

(** Go ranges over a map in an order of its own choosing: in [List] and
    [Find] the entries of each map are visited in the order into which
    [range_instances] and [range_factories] rearrange them. *)
Definition ranged {V} (range : list (string * V) -> list (string * V))
    (m : gmap string V) : list (string * V) :=
  range (map_to_list m).

(** The second loop of [List]: a default instance of every factory whose
    name was not seen among the instances and that reports no error. *)
Definition list_factory (seen : list string) (nf : string * ToolFactory)
  : option (option Tool) :=
  if bool_decide (nf.1 ∈ seen) then None
  else match nf.2 None with
       | (t, None) => Some t
       | (_, Some _) => None
       end.

Definition List (r : Registry)
    (range_instances : list (string * Tool) -> list (string * Tool))
    (range_factories : list (string * ToolFactory) -> list (string * ToolFactory))
  : list (option Tool) :=
  let visited := ranged range_instances (instances r) in
  let list1 := (fun nt => Some nt.2) <$> visited in
  let seen := fst <$> visited in
  list1 ++ omap (list_factory seen) (ranged range_factories (factories r)).

(** The two scans of [Find], for the lower-cased [target]. *)
Fixpoint find_instance (ToLower : string -> string) (target : string)
    (entries : list (string * Tool)) : option Tool :=
  match entries with
  | [] => None
  | (n, t) :: rest =>
      if bool_decide (ToLower n = target) then Some t
      else find_instance ToLower target rest
  end.

Fixpoint find_factory (ToLower : string -> string) (target : string)
    (entries : list (string * ToolFactory)) : option Tool :=
  match entries with
  | [] => None
  | (n, factory) :: rest =>
      if bool_decide (ToLower n = target) then
        match factory None with
        | (t, None) => t
        | (_, Some _) => find_factory ToLower target rest
        end
      else find_factory ToLower target rest
  end.

(** [Registry.Find]; [ToLower] stands for [strings.ToLower]. *)
Definition Registry_Find (ToLower : string -> string) (r : Registry)
    (range_instances : list (string * Tool) -> list (string * Tool))
    (range_factories : list (string * ToolFactory) -> list (string * ToolFactory))
    (name : string) : option Tool :=
  match Get r name with
  | (t, true) => t
  | (_, false) =>
      let target := ToLower name in
      match find_instance ToLower target (ranged range_instances (instances r)) with
      | Some t => Some t
      | None => find_factory ToLower target (ranged range_factories (factories r))
      end
  end.

(** [strings.ToLower] on strings of ASCII bytes. *)
Definition lower_ascii (c : Ascii.ascii) : Ascii.ascii :=
  let n := Ascii.nat_of_ascii c in
  if (65 <=? n)%nat && (n <=? 90)%nat then Ascii.ascii_of_nat (n + 32) else c.

Fixpoint ToLowerASCII (s : string) : string :=
  match s with
  | EmptyString => EmptyString
  | String c s' => String (lower_ascii c) (ToLowerASCII s')
  end.

(** A registry with the instance [echo] and a factory [Clock] that only
    works when given a configuration. *)
Definition echo_tool : Tool :=
  {| Name := "echo"; Description := "repeats its input"; InputSchema := None;
     Prompt := ""; enhanced := None |}.

Definition clock_factory : ToolFactory :=
  fun config =>
    match config with
    | Some _ => (Some (priority_tool "Clock" 1), None)
    | None => (None, Some (errorString "clock: configuration required"))
    end.

Definition sample_registry : Registry :=
  RegisterFactory "Clock" clock_factory (RegisterInstance echo_tool NewRegistry).

(** ** Building tools ([BaseTool], [Func], [NewFunc]) *)

(** [DefaultRetryPolicy()]: three retries and no pattern. *)
Definition DefaultRetryPolicy : RetryPolicy :=
  {| MaxRetries := 3; InitialBackoff := 100 * Millisecond;
     MaxBackoff := 5 * Second; RetryableErrors := [] |}.

Record BaseTool : Type := {
  NameVal : string;
  DescVal : string;
  SchemaVal : option (gmap string Value);
  PromptVal : string;
  IsLongRunningVal : bool;
  TimeoutVal : Duration;
  PriorityVal : Z;
  RequiresApprovalVal : bool;
  RetryPolicyVal : option RetryPolicy
}.

Definition NewBaseTool (name desc : string) : BaseTool :=
  {| NameVal := name; DescVal := desc; SchemaVal := None; PromptVal := "";
     IsLongRunningVal := false; TimeoutVal := 30 * Second; PriorityVal := 0;
     RequiresApprovalVal := false;
     RetryPolicyVal := Some DefaultRetryPolicy |}.

(** A [BaseTool] pointer, or a struct that embeds one, seen through the [Tool]
    interface: its getters, [EnhancedTool] included. *)
Definition BaseTool_Tool (b : BaseTool) : Tool :=
  {| Name := NameVal b; Description := DescVal b; InputSchema := SchemaVal b;
     Prompt := PromptVal b;
     enhanced := Some {| IsLongRunning := IsLongRunningVal b;
                         Timeout := TimeoutVal b;
                         Priority := PriorityVal b;
                         RequiresApproval := RequiresApprovalVal b;
                         RetryPolicyOf := RetryPolicyVal b |} |}.

(** [Callable], as far as its result depends on the input and the tool
    context it is given. *)
Definition Callable : Type :=
  gmap string Value -> option ToolContext -> Value * option error.

Record Func : Type := {
  base : BaseTool;
  fn : option Callable
}.

(** The default schema of [NewFunc]: an object with one required string
    field, [input]. *)
Definition freeform_schema : gmap string Value :=
  {[ "type" := VString "object";
     "properties" :=
       VMap [("input", VMap [("type", VString "string");
                             ("description", VString "freeform input")])];
     "required" := VStrings ["input"] ]}.

Definition with_schema (schema : option (gmap string Value)) (b : BaseTool)
  : BaseTool :=
  {| NameVal := NameVal b; DescVal := DescVal b; SchemaVal := schema;
     PromptVal := PromptVal b; IsLongRunningVal := IsLongRunningVal b;
     TimeoutVal := TimeoutVal b; PriorityVal := PriorityVal b;
     RequiresApprovalVal := RequiresApprovalVal b;
     RetryPolicyVal := RetryPolicyVal b |}.

Definition NewFunc (name description : string) (f : option Callable) : Func :=
  {| base := with_schema (Some freeform_schema) (NewBaseTool name description);
     fn := f |}.

(** [Func.Execute]. *)
Definition Func_Execute (f : Func) (input : gmap string Value)
    (tc : option ToolContext) : Value * option error :=
  match fn f with
  | None =>
      (VNil, Some (errorString
                     ("tool " +:+ NameVal (base f) +:+ " has no implementation")))
  | Some g => g input tc
  end.

(** The fluent setters of [Func]. *)
Definition WithSchema (schema : option (gmap string Value)) (f : Func) : Func :=
  {| base := with_schema schema (base f); fn := fn f |}.

Definition WithTimeout (d : Duration) (f : Func) : Func :=
  {| base := {| NameVal := NameVal (base f); DescVal := DescVal (base f);
                SchemaVal := SchemaVal (base f); PromptVal := PromptVal (base f);
                IsLongRunningVal := IsLongRunningVal (base f);
                TimeoutVal := d; PriorityVal := PriorityVal (base f);
                RequiresApprovalVal := RequiresApprovalVal (base f);
                RetryPolicyVal := RetryPolicyVal (base f) |};
     fn := fn f |}.

Definition WithRetry (policy : option RetryPolicy) (f : Func) : Func :=
  {| base := {| NameVal := NameVal (base f); DescVal := DescVal (base f);
                SchemaVal := SchemaVal (base f); PromptVal := PromptVal (base f);
                IsLongRunningVal := IsLongRunningVal (base f);
                TimeoutVal := TimeoutVal (base f);
                PriorityVal := PriorityVal (base f);
                RequiresApprovalVal := RequiresApprovalVal (base f);
                RetryPolicyVal := policy |};
     fn := fn f |}.

Definition WithApproval (required : bool) (f : Func) : Func :=
  {| base := {| NameVal := NameVal (base f); DescVal := DescVal (base f);
                SchemaVal := SchemaVal (base f); PromptVal := PromptVal (base f);
                IsLongRunningVal := IsLongRunningVal (base f);
                TimeoutVal := TimeoutVal (base f);
                PriorityVal := PriorityVal (base f);
                RequiresApprovalVal := required;
                RetryPolicyVal := RetryPolicyVal (base f) |};
     fn := fn f |}.

(** A [Func] pointer seen through the [Tool] interface. *)
Definition Func_Tool (f : Func) : Tool := BaseTool_Tool (base f).

(** The world of a call runs the tool [f]: at every attempt the tool
    returns what [Func.Execute] does on the request's input and
    context. *)
Definition runs_Func (w : World) (f : Func) (req : ExecuteRequest) : Prop :=
  forall k, tool_Execute w k = Func_Execute f (Input req) (Context req).

(** ** Listing and finding tools ([Format], [Find]) *)

Definition newline : string := String (Ascii.ascii_of_nat 10) EmptyString.

(** [strings.Join]. *)
Fixpoint Join (elems : list string) (sep : string) : string :=
  match elems with
  | [] => EmptyString
  | [x] => x
  | x :: rest => x +:+ sep +:+ Join rest sep
  end.

(** [fmt.Sprintf("- %s: %s", t.Name(), t.Description())]. *)
Definition format_line (t : Tool) : string :=
  "- " +:+ Name t +:+ ": " +:+ Description t.

Definition Format (tools : list Tool) : string :=
  match tools with
  | [] => "no tools available"
  | _ => Join (format_line <$> tools) newline
  end.

(** [Find] over a slice of tools; [EqualFold] stands for
    [strings.EqualFold]. *)
Fixpoint Find (EqualFold : string -> string -> bool) (tools : list Tool)
    (name : string) : option Tool :=
  match tools with
  | [] => None
  | t :: rest =>
      if EqualFold (Name t) name then Some t else Find EqualFold rest name
  end.

(** [strings.EqualFold] on strings of ASCII bytes. *)
Definition EqualFoldASCII (s t : string) : bool :=
  bool_decide (ToLowerASCII s = ToLowerASCII t).

(** ** Tool contexts ([NewToolContext]) *)

(** An [Option] changes a [ToolContext] in place. *)
Definition CtxOption : Type := ToolContext -> ToolContext.

Definition WithAgentID (id : string) : CtxOption :=
  fun tc => {| AgentID := id; SessionID := SessionID tc;
               ExecutionID := ExecutionID tc; Metadata := Metadata tc |}.

Definition WithSessionID (id : string) : CtxOption :=
  fun tc => {| AgentID := AgentID tc; SessionID := id;
               ExecutionID := ExecutionID tc; Metadata := Metadata tc |}.

(** [WithLogger] sets the logger, a field this [ToolContext] leaves out. *)
Definition WithLogger : CtxOption := fun tc => tc.

Definition NewToolContext (opts : list CtxOption) : ToolContext :=
  foldl (fun tc opt => opt tc)
        {| AgentID := ""; SessionID := ""; ExecutionID := ""; Metadata := ∅ |}
        opts.

(** The options the package provides. *)
Inductive provided : CtxOption -> Prop :=
| provided_agent id : provided (WithAgentID id)
| provided_session id : provided (WithSessionID id)
| provided_logger : provided WithLogger.

(** A world that runs the freeform tool [note], which has no function. *)
Definition note_world : World :=
  {| now_start := 1000; now_end := 6000; slot_wait := None;
     tool_Execute := fun _ =>
       Func_Execute (NewFunc "note" "takes a note" None) some_input None;
     backoff_wait := fun _ => None |}.

(** * Properties *)

(** ** Sample runs *)

Example Contains_inside : Contains "i/o timeout" "timeout" = true.
Proof. reflexivity. Qed.

Example Contains_absent : Contains "permission denied" "timeout" = false.
Proof. reflexivity. Qed.

Example Contains_empty_pattern : Contains "anything" "" = true.
Proof. reflexivity. Qed.

Example wrap64_overflow : wrap64 (1 + (2 ^ 63 - 1)) = - 2 ^ 63.
Proof. reflexivity. Qed.

Example required_fields_of_any_slice :
  required_fields {[ "required" := VSlice [VString "a"; VInt 1; VString "b"] ]}
  = ["a"; "b"].
Proof. reflexivity. Qed.

Example ValidateInput_missing :
  ValidateInput (base_tool "fetch" false None) ∅
  = Some (errorString "missing required field: input").
Proof. reflexivity. Qed.

Example ValidateInput_present :
  ValidateInput (base_tool "fetch" false None) some_input = None.
Proof. reflexivity. Qed.

Example approved_needs_a_boolean :
  approved (Some {| AgentID := ""; SessionID := ""; ExecutionID := "";
                    Metadata := {[ "approved" := VString "true" ]} |}) = false /\
  approved (Some {| AgentID := ""; SessionID := ""; ExecutionID := "";
                    Metadata := {[ "approved" := VBool true ]} |}) = true.
Proof. split; reflexivity. Qed.

(** Two failures that the policy retries, then a success. *)
Example Execute_flaky :
  Execute default_executor (flaky_world 2)
    (request (base_tool "fetch" false (Some timeout_policy)) some_input None)
  = ({| Success := true; Output := VString "done"; Error := None;
        Duration_ := 5000; StartedAt := 1000; FinishedAt := 6000;
        Attempts := 3; LongRunning := false |},
     [EvAcquire;
      EvCall 0 (Some (30 * Second)); EvReturn 0; EvBackoff 0;
      EvCall 1 (Some (30 * Second)); EvReturn 1; EvBackoff 1;
      EvCall 2 (Some (30 * Second)); EvReturn 2;
      EvRelease]).
Proof. reflexivity. Qed.

(** A failure that the policy does not retry. *)
Example Execute_denied :
  Execute default_executor denied_world
    (request (base_tool "fetch" false (Some timeout_policy)) some_input None)
  = ({| Success := false; Output := VNil;
        Error := Some (errorString "permission denied");
        Duration_ := 5000; StartedAt := 1000; FinishedAt := 6000;
        Attempts := 1; LongRunning := false |},
     [EvAcquire; EvCall 0 (Some (30 * Second)); EvReturn 0; EvRelease]).
Proof. reflexivity. Qed.

(** Failures at every attempt: the four attempts allowed are made. *)
Example Execute_exhausted :
  (Execute default_executor (flaky_world 10)
     (request (base_tool "fetch" false (Some timeout_policy)) some_input None)).1
  = {| Success := false; Output := VNil;
       Error := Some (errorString "i/o timeout");
       Duration_ := 5000; StartedAt := 1000; FinishedAt := 6000;
       Attempts := 4; LongRunning := false |}.
Proof. reflexivity. Qed.

(** Approval required and not granted. *)
Example Execute_unapproved :
  Execute default_executor (flaky_world 0)
    (request (base_tool "deploy" true None) some_input None)
  = ({| Success := false; Output := VNil;
        Error := Some (errorString
                   "tool deploy requires approval before execution");
        Duration_ := 5000; StartedAt := 1000; FinishedAt := 6000;
        Attempts := 0; LongRunning := false |},
     [EvAcquire; EvRelease]).
Proof. reflexivity. Qed.

(** The registry prefers a factory to an instance of the same name. *)
Example Create_prefers_factory :
  (Create (RegisterFactory "plain" (fun _ => (Some (priority_tool "made" 1), None))
             (RegisterInstance plain_tool NewRegistry))
          "plain" None).1
  = (Some (priority_tool "made" 1), None).
Proof. reflexivity. Qed.

(** ** The attempt loop *)

Section AttemptLoop.
Variables (w : World) (policy : option RetryPolicy)
          (deadline : option Duration) (maxAttempts : Z).

#[local] Abbreviation loop := (attemptLoop w policy deadline maxAttempts).

Ltac loop_step n :=
  cbn [attemptLoop];
  destruct (tool_Execute w (maxAttempts - Z.of_nat (S n))) as [out [e|]] eqn:Hout;
  [ destruct (maxAttempts - Z.of_nat (S n) <? maxAttempts - 1) eqn:Hlast;
    [ destruct (isRetryable e policy) eqn:Hretry; cbn [negb];
      [ destruct (backoff_wait w (maxAttempts - Z.of_nat (S n))) as [cerr|] eqn:Hwait | ]
    | ]
  | ].

Ltac loop_rec n :=
  try destruct (attemptLoop w policy deadline maxAttempts n _)
    as [st2 tr2] eqn:Hrec;
  cbn [app]; intros Heq; injection Heq as <- <-.

Ltac split_in H :=
  repeat (apply elem_of_cons in H as [? | H]);
  try (by apply elem_of_nil in H); simplify_eq.

(** Every event of the loop carries an index between the loop counter
    at entry and [maxAttempts]. *)
Lemma loop_index_range n st st' tr ev k :
  loop n st = (st', tr) -> ev ∈ tr -> ev_index ev = Some k ->
  maxAttempts - Z.of_nat n <= k < maxAttempts.
Proof.
  revert st st' tr. induction n as [|n IH]; intros st st' tr.
  - cbn. intros [= <- <-] H. by apply elem_of_nil in H.
  - loop_step n; loop_rec n; intros Hin Hk; split_in Hin;
      try (cbn in Hk; simplify_eq; lia);
      specialize (IH _ _ _ Hrec Hin Hk); lia.
Qed.

(** Every call of the tool is made under the per-attempt deadline. *)
Lemma loop_call_deadline n st st' tr k d :
  loop n st = (st', tr) -> EvCall k d ∈ tr -> d = deadline.
Proof.
  revert st st' tr. induction n as [|n IH]; intros st st' tr.
  - cbn. intros [= <- <-] H. by apply elem_of_nil in H.
  - loop_step n; loop_rec n; intros Hin; split_in Hin;
      try congruence; try discriminate; eauto.
Qed.

(** The tool is entered at most once per iteration, and at least once
    when there is an iteration. *)
Lemma loop_invocations n st st' tr :
  loop n st = (st', tr) ->
  (invocations tr <= n)%nat /\ (n <> 0%nat -> (1 <= invocations tr)%nat).
Proof.
  revert st st' tr. induction n as [|n IH]; intros st st' tr.
  - cbn. intros [= <- <-]. cbn. lia.
  - loop_step n; loop_rec n; cbn; try lia;
      destruct (IH _ _ _ Hrec); lia.
Qed.

(** On leaving the loop [attempts] is the index of the last attempt
    made, plus one. *)
Lemma loop_attempts n st st' tr :
  loop n st = (st', tr) -> n <> 0%nat ->
  attempts st' = maxAttempts - Z.of_nat n + Z.of_nat (invocations tr).
Proof.
  revert st st' tr. induction n as [|n IH]; intros st st' tr.
  - done.
  - loop_step n; loop_rec n; intros _; cbn [invocations is_call attempts];
      try lia.
    + destruct n as [|n']; [cbn in Hrec; simplify_eq; cbn; lia|].
      rewrite (IH _ _ _ Hrec) by done. lia.
    + destruct n as [|n']; [cbn in Hrec; simplify_eq; cbn; lia|].
      apply Z.ltb_ge in Hlast. lia.
Qed.

(** An attempt that succeeds, or fails with an error the policy does
    not retry, is the last thing the loop does: its outcome is the
    loop's, no backoff wait follows it and no later attempt is made. *)
Lemma loop_stop n st st' tr k d :
  loop n st = (st', tr) -> EvCall k d ∈ tr -> stops_at w policy k ->
  st' = {| output := fst (tool_Execute w k);
           execErr := snd (tool_Execute w k);
           attempts := k + 1 |} /\
  (forall ev j, ev ∈ tr -> ev_index ev = Some j -> j <= k) /\
  EvBackoff k ∉ tr.
Proof.
  unfold stops_at. revert st st' tr.
  induction n as [|n IH]; intros st st' tr.
  - cbn. intros [= <- <-] H. by apply elem_of_nil in H.
  - loop_step n; loop_rec n; intros Hin Hstop; split_in Hin; simplify_eq;
      try (rewrite Hout in Hstop; cbn in Hstop; congruence).
    + (* a later attempt stops the loop *)
      destruct (IH _ _ _ Hrec Hin Hstop) as (-> & Hle & Hnb).
      pose proof (loop_index_range _ _ _ _ _ k Hrec Hin eq_refl) as Hk.
      split; [done|]. split.
      * intros ev j Hev Hj. split_in Hev; try (cbn in Hj; simplify_eq; lia).
        eauto.
      * intros Hb. split_in Hb; [simplify_eq; lia | done].
    + (* the error is not retried *)
      rewrite Hout. split; [done|]. split.
      * intros ev j Hev Hj. split_in Hev; cbn in Hj; simplify_eq; lia.
      * intros Hb. split_in Hb; discriminate.
    + (* the last attempt allowed *)
      apply Z.ltb_ge in Hlast.
      destruct n as [|n']; [|lia]. cbn in Hrec. simplify_eq.
      rewrite Hout. split; [done|]. split.
      * intros ev j Hev Hj. split_in Hev; cbn in Hj; simplify_eq; lia.
      * intros Hb. split_in Hb; discriminate.
    + (* the last attempt allowed, reached from an earlier index *)
      apply Z.ltb_ge in Hlast.
      destruct n as [|n']; [|lia]. cbn in Hrec. simplify_eq.
      by apply elem_of_nil in Hin.
    + (* success *)
      rewrite Hout. split; [done|]. split.
      * intros ev j Hev Hj. split_in Hev; cbn in Hj; simplify_eq; lia.
      * intros Hb. split_in Hb; discriminate.
Qed.

(** In the events of the loop, calls of the tool and their returns
    alternate, and the semaphore is not touched. *)
Lemma loop_body_ok n st st' tr :
  loop n st = (st', tr) -> body_ok false tr = true.
Proof.
  revert st st' tr. induction n as [|n IH]; intros st st' tr.
  - cbn. by intros [= <- <-].
  - loop_step n; loop_rec n; cbn; eauto.
Qed.

(** An iteration emits at most three events: the call, its return and
    the backoff wait. *)
Lemma loop_length n st st' tr :
  loop n st = (st', tr) -> (length tr <= 3 * n)%nat.
Proof.
  revert st st' tr. induction n as [|n IH]; intros st st' tr.
  - cbn. intros [= <- <-]. cbn. lia.
  - loop_step n; loop_rec n; cbn [length]; try lia;
      specialize (IH _ _ _ Hrec); lia.
Qed.
End AttemptLoop.

(** ** Strings and retryable errors *)

Lemma append_nil_l (s : string) : "" +:+ s = s.
Proof. reflexivity. Qed.

Lemma append_cons_l c (s t : string) : String c s +:+ t = String c (s +:+ t).
Proof. reflexivity. Qed.

Lemma HasPrefix_spec s prefix :
  HasPrefix s prefix = true <-> exists post, s = prefix +:+ post.
Proof.
  revert s. induction prefix as [|c prefix IH]; intros s; cbn.
  - split; [intros _; by exists s | done].
  - destruct s as [|d s].
    + split; [done | intros [post Hp]; discriminate].
    + rewrite andb_true_iff, IH, Ascii.eqb_eq. split.
      * intros [-> [post ->]]. by exists post.
      * intros [post Hp]. rewrite append_cons_l in Hp.
        injection Hp as -> ->. eauto.
Qed.

Lemma Contains_spec s sub : Contains s sub = true <-> substring_of sub s.
Proof.
  unfold substring_of. induction s as [|c s IH]; cbn.
  - rewrite orb_false_r, HasPrefix_spec. split.
    + intros [post Hp]. exists EmptyString, post. done.
    + intros [[|? pre] [post Hp]]; [by exists post | discriminate].
  - rewrite orb_true_iff, IH, HasPrefix_spec. split.
    + intros [[post Hp] | (pre & post & ->)].
      * exists EmptyString, post. done.
      * exists (String c pre), post. done.
    + intros [[|d pre] [post Hp]].
      * left. by exists post.
      * right. rewrite append_cons_l in Hp. injection Hp as -> ->. eauto.
Qed.

Lemma isRetryable_spec err p :
  isRetryable err (Some p) = true <->
  RetryableErrors p = [] \/
  exists pattern, pattern ∈ RetryableErrors p /\ substring_of pattern (Error_ err).
Proof.
  unfold isRetryable. destruct (RetryableErrors p) as [|pat pats] eqn:Hp.
  - split; [by left | done].
  - rewrite existsb_exists. split.
    + intros (x & Hin & Hc). right. exists x. split.
      * by apply list_elem_of_In.
      * by apply Contains_spec.
    + intros [? | (x & Hin & Hc)]; [done|]. exists x. split.
      * by apply list_elem_of_In.
      * by apply Contains_spec.
Qed.

(** ** Validation and approval *)

Lemma check_required_spec required input :
  is_Some (check_required required input) <->
  exists field, field ∈ required /\ input !! field = None.
Proof.
  induction required as [|f rest IH]; cbn.
  - split; [by intros [? ?] | intros (f & Hf & _); by apply elem_of_nil in Hf].
  - destruct (input !! f) eqn:Hf.
    + rewrite IH. split.
      * intros (g & Hg & Hn). exists g. split; [by apply list_elem_of_further | done].
      * intros (g & Hg & Hn). apply elem_of_cons in Hg as [-> | Hg]; [congruence|].
        eauto.
    + split; [|eauto]. intros _. exists f. split; [apply list_elem_of_here | done].
Qed.

Lemma ValidateInput_spec tool input :
  is_Some (ValidateInput tool input) <-> missing_required tool input.
Proof.
  unfold ValidateInput, missing_required.
  destruct (InputSchema tool) as [schema|].
  - rewrite check_required_spec. split.
    + intros (f & Hf & Hn). by exists schema, f.
    + intros (s & f & [= <-] & Hf & Hn). eauto.
  - split; [by intros [? ?] | by intros (s & f & ? & _)].
Qed.

Lemma approved_spec tc : approved tc = true <-> approval_granted tc.
Proof.
  unfold approved, approval_granted. destruct tc as [c|].
  - destruct (Metadata c !! "approved") as [[| b | | | | |]|] eqn:Hm;
      try (split; [done | by intros (c' & [= <-] & Hc'); congruence]).
    split.
    + intros ->. eauto.
    + intros (c' & [= <-] & Hc'). congruence.
  - split; [done | by intros (c & ? & _)].
Qed.

Lemma resolve_retryPolicy e req :
  retryPolicy (resolve e req) = toolRetryPolicy (ReqTool req).
Proof. unfold resolve, toolRetryPolicy. by destruct (enhanced _). Qed.

Lemma resolve_requiresApproval e req :
  requiresApproval (resolve e req) = toolRequiresApproval (ReqTool req).
Proof. unfold resolve, toolRequiresApproval. by destruct (enhanced _). Qed.

(** [attempted] is the negation of [short_circuit]. *)
Lemma attempted_false_iff e w req :
  attempted e w req = false <-> short_circuit w req.
Proof.
  unfold attempted, short_circuit.
  rewrite resolve_requiresApproval, <- ValidateInput_spec.
  pose proof (approved_spec (Context req)) as Happ.
  destruct (slot_wait w), (ValidateInput _ _), (toolRequiresApproval _),
    (approved (Context req)); cbn; split; intros H; try done;
    try (left; by eexists); try (right; left; by eexists).
  - destruct H as [[? ?] | [[? ?] | [? Hn]]]; try done.
    destruct Hn. by apply Happ.
  - right. right. split; [done|]. intros Hg. apply Happ in Hg. done.
  - destruct H as [[? ?] | [[? ?] | [? Hn]]]; done.
  - destruct H as [[? ?] | [[? ?] | [? Hn]]]; done.
Qed.

(** ** One call of [Execute] *)

Lemma invocations_app tr1 tr2 :
  invocations (tr1 ++ tr2) = (invocations tr1 + invocations tr2)%nat.
Proof. induction tr1 as [|ev tr1 IH]; cbn; [done | rewrite IH; lia]. Qed.

Lemma elem_of_holding ev body :
  ev_index ev <> None ->
  ev ∈ EvAcquire :: body ++ [EvRelease] <-> ev ∈ body.
Proof.
  intros Hev. rewrite elem_of_cons, elem_of_app, list_elem_of_singleton.
  split; [|tauto]. intros [-> | [? | ->]]; done.
Qed.

(** A call that gets into the attempt loop: the loop runs
    [maxAttemptsOf] iterations from attempt 0 on, between acquiring and
    releasing the slot, and its final state makes the result. *)
Lemma Execute_attempted e w req :
  attempted e w req = true ->
  exists st tr,
    attemptLoop w (retryPolicy (resolve e req))
      (attempt_deadline (timeout (resolve e req)))
      (maxAttemptsOf (retryPolicy (resolve e req)))
      (Z.to_nat (maxAttemptsOf (retryPolicy (resolve e req))))
      {| output := VNil; execErr := None; attempts := 0 |} = (st, tr) /\
    Execute e w req =
      ({| Success := is_nil (execErr st); Output := output st;
          Error := execErr st; Duration_ := Sub (now_end w) (now_start w);
          StartedAt := now_start w; FinishedAt := now_end w;
          Attempts := attempts st;
          LongRunning := longRunning (resolve e req) |},
       EvAcquire :: tr ++ [EvRelease]).
Proof.
  unfold attempted, Execute, executeHolding. intros H.
  destruct (slot_wait w); [done|].
  destruct (ValidateInput _ _); [done|].
  destruct (requiresApproval _ && negb _); [done|].
  destruct (attemptLoop _ _ _ _ _ _) as [st tr]. by exists st, tr.
Qed.

(** A call that does not: it fails with an error, records no attempt and
    never enters the tool. *)
Lemma Execute_short_circuit e w req :
  attempted e w req = false ->
  Success (Execute e w req).1 = false /\
  Attempts (Execute e w req).1 = 0 /\
  is_Some (Error (Execute e w req).1) /\
  (forall ev, ev ∈ (Execute e w req).2 -> ev_index ev = None).
Proof.
  unfold attempted, Execute, executeHolding. intros H.
  destruct (slot_wait w).
  { cbn. split_and!; [done..|]. intros ev Hev. by apply elem_of_nil in Hev. }
  destruct (ValidateInput _ _).
  { cbn. split_and!; [done..|]. intros ev Hev.
    apply elem_of_cons in Hev as [-> | Hev]; [done|].
    apply list_elem_of_singleton in Hev as ->. done. }
  destruct (requiresApproval _ && negb _); [|done].
  cbn. split_and!; [done..|]. intros ev Hev.
  apply elem_of_cons in Hev as [-> | Hev]; [done|].
  apply list_elem_of_singleton in Hev as ->. done.
Qed.

Lemma no_index_no_invocation tr :
  (forall ev, ev ∈ tr -> ev_index ev = None) -> invocations tr = 0%nat.
Proof.
  induction tr as [|ev tr IH]; [done|]. intros H. cbn.
  rewrite IH by (intros ev' Hev'; apply H; by apply list_elem_of_further).
  specialize (H ev (list_elem_of_here _ _)). by destruct ev.
Qed.

(** Unfolding one iteration: a failed attempt that is retried after its
    backoff wait, and a successful one. *)
Lemma loop_step_retry w policy deadline maxAttempts n st k e :
  maxAttempts - Z.of_nat (S n) = k ->
  (tool_Execute w k).2 = Some e ->
  k < maxAttempts - 1 ->
  isRetryable e policy = true ->
  backoff_wait w k = None ->
  attemptLoop w policy deadline maxAttempts (S n) st =
    let r := attemptLoop w policy deadline maxAttempts n
               {| output := (tool_Execute w k).1; execErr := Some e;
                  attempts := k + 1 |} in
    (r.1, EvCall k deadline :: EvReturn k :: EvBackoff k :: r.2).
Proof.
  intros <- Hout Hlt Hretry Hwait. cbn [attemptLoop].
  destruct (tool_Execute w _) as [o x]. cbn in Hout. subst x.
  apply Z.ltb_lt in Hlt. rewrite Hlt, Hretry. cbn [negb]. rewrite Hwait.
  cbn. by destruct (attemptLoop _ _ _ _ n _).
Qed.

Lemma loop_step_success w policy deadline maxAttempts n st k :
  maxAttempts - Z.of_nat (S n) = k ->
  (tool_Execute w k).2 = None ->
  attemptLoop w policy deadline maxAttempts (S n) st =
    ({| output := (tool_Execute w k).1; execErr := None; attempts := k + 1 |},
     [EvCall k deadline; EvReturn k]).
Proof.
  intros <- Hout. cbn [attemptLoop].
  destruct (tool_Execute w _) as [o x]. cbn in Hout. by subst x.
Qed.

Lemma wrap64_le x : 0 <= x -> wrap64 x <= x.
Proof.
  intros Hx. unfold wrap64.
  destruct (Z.lt_ge_cases x (2 ^ 63)) as [Hlt | Hge].
  - rewrite Z.mod_small by lia. lia.
  - pose proof (Z.mod_pos_bound (x + 2 ^ 63) (2 ^ 64)). lia.
Qed.

(** The calls of the tool made by [Execute] are those of the attempt
    loop; there are at most [maxAttemptsOf] of them, as many as the
    [Attempts] reported when the loop is entered. *)
Lemma Execute_invocations e w req :
  Z.of_nat (invocations (Execute e w req).2)
    <= Z.max 0 (maxAttemptsOf (toolRetryPolicy (ReqTool req))) /\
  (attempted e w req = true ->
   0 < maxAttemptsOf (toolRetryPolicy (ReqTool req)) ->
   Attempts (Execute e w req).1 = Z.of_nat (invocations (Execute e w req).2) /\
   (1 <= invocations (Execute e w req).2)%nat).
Proof.
  destruct (attempted e w req) eqn:Hatt.
  - destruct (Execute_attempted _ _ _ Hatt) as (st & tr & Hloop & ->).
    rewrite resolve_retryPolicy in Hloop. cbn [fst snd].
    cbn [invocations is_call]. rewrite invocations_app. cbn.
    destruct (loop_invocations _ _ _ _ _ _ _ _ Hloop) as [Hle Hge]. split; [lia|].
    intros _ Hpos.
    rewrite (loop_attempts _ _ _ _ _ _ _ _ Hloop) by lia. lia.
  - destruct (Execute_short_circuit _ _ _ Hatt) as (_ & _ & _ & Hno).
    rewrite (no_index_no_invocation _ Hno). split; [lia | done].
Qed.

(** An attempt of [Execute] that succeeds, or fails with an error the
    policy does not retry, ends the loop. *)
Lemma Execute_stop e w req k d :
  EvCall k d ∈ (Execute e w req).2 ->
  stops_at w (toolRetryPolicy (ReqTool req)) k ->
  Success (Execute e w req).1 = is_nil (tool_Execute w k).2 /\
  Output (Execute e w req).1 = (tool_Execute w k).1 /\
  Error (Execute e w req).1 = (tool_Execute w k).2 /\
  Attempts (Execute e w req).1 = k + 1 /\
  Z.of_nat (invocations (Execute e w req).2) = k + 1 /\
  (EvBackoff k ∉ (Execute e w req).2) /\
  (forall j d', EvCall j d' ∈ (Execute e w req).2 -> j <= k).
Proof.
  intros Hin Hstop.
  destruct (attempted e w req) eqn:Hatt.
  - pose proof (Execute_invocations e w req) as [_ Hinv].
    specialize (Hinv Hatt).
    destruct (Execute_attempted _ _ _ Hatt) as (st & tr & Hloop & Heq).
    rewrite Heq in *. cbn [fst snd] in *.
    rewrite resolve_retryPolicy in Hloop.
    rewrite elem_of_holding in Hin by done.
    destruct (loop_stop _ _ _ _ _ _ _ _ _ _ Hloop Hin Hstop) as (-> & Hle & Hnb).
    pose proof (loop_index_range _ _ _ _ _ _ _ _ _ k Hloop Hin eq_refl) as Hk.
    cbn [execErr output attempts] in *.
    split_and!; try done.
    + destruct Hinv as [Hinv _]; [lia|]. cbn [Attempts] in Hinv. lia.
    + intros Hb. rewrite elem_of_holding in Hb by done. done.
    + intros j d' Hj. rewrite elem_of_holding in Hj by done. by eapply Hle.
  - destruct (Execute_short_circuit _ _ _ Hatt) as (_ & _ & _ & Hno).
    by specialize (Hno _ Hin).
Qed.

Lemma isRetryable_pattern e p :
  (exists pattern, pattern ∈ RetryableErrors p /\ substring_of pattern (Error_ e)) ->
  isRetryable e (Some p) = true.
Proof. intros H. apply isRetryable_spec. by right. Qed.

(** C1, amended. Under a retry policy with [MaxRetries = n >= 0]
    [Execute] enters the tool at most [1 + n] times.  Without a retry
    policy it enters the tool at most once: exactly once when the call
    gets to the attempt loop, and not at all when the call ends in one of
    the three short circuits (context done during admission, required
    field missing, approval not granted).  A successful attempt is the
    last one: the result is a success that reports this attempt's
    ordinal, no backoff and no further attempt follow.  In particular,
    when the tool fails twice with errors that contain a configured
    pattern and then succeeds, under [MaxRetries = 3] and with both
    backoff waits running to their end, the result has [Success = true]
    and [Attempts = 3]. *)
Theorem C1_attempts_bounded_first_success_stops
    (e : Executor) (w : World) (req : ExecuteRequest) :
  let res := (Execute e w req).1 in
  let tr := (Execute e w req).2 in
  (forall p, toolRetryPolicy (ReqTool req) = Some p -> 0 <= MaxRetries p ->
     Z.of_nat (invocations tr) <= 1 + MaxRetries p) /\
  (toolRetryPolicy (ReqTool req) = None ->
     (invocations tr <= 1)%nat /\
     (attempted e w req = true -> invocations tr = 1%nat) /\
     (invocations tr = 1%nat <-> ~ short_circuit w req) /\
     (invocations tr = 0%nat <-> short_circuit w req)) /\
  (forall k d, EvCall k d ∈ tr -> (tool_Execute w k).2 = None ->
     Success res = true /\ Attempts res = k + 1 /\
     Output res = (tool_Execute w k).1 /\
     Z.of_nat (invocations tr) = k + 1 /\
     (EvBackoff k ∉ tr) /\
     (forall j d', EvCall j d' ∈ tr -> j <= k)) /\
  (forall p e0 e1,
     toolRetryPolicy (ReqTool req) = Some p -> MaxRetries p = 3 ->
     attempted e w req = true ->
     (tool_Execute w 0).2 = Some e0 ->
     (tool_Execute w 1).2 = Some e1 ->
     (tool_Execute w 2).2 = None ->
     (exists pattern, pattern ∈ RetryableErrors p /\ substring_of pattern (Error_ e0)) ->
     (exists pattern, pattern ∈ RetryableErrors p /\ substring_of pattern (Error_ e1)) ->
     backoff_wait w 0 = None -> backoff_wait w 1 = None ->
     Success res = true /\ Attempts res = 3 /\ invocations tr = 3%nat).
Proof.
  cbv zeta. pose proof (Execute_invocations e w req) as [Hmax Hatt].
  split_and!.
  - intros p Hp Hn. rewrite Hp in Hmax. cbn in Hmax.
    pose proof (wrap64_le (1 + MaxRetries p)). lia.
  - intros Hp. rewrite Hp in Hmax, Hatt. cbn in Hmax, Hatt.
    rewrite <- (attempted_false_iff e).
    assert (attempted e w req = true -> invocations (Execute e w req).2 = 1%nat)
      as Hone by (intros Ha; destruct (Hatt Ha) as [_ ?]; lia).
    assert (attempted e w req = false -> invocations (Execute e w req).2 = 0%nat)
      as Hzero.
    { intros Ha. apply no_index_no_invocation.
      by destruct (Execute_short_circuit _ _ _ Ha) as (_ & _ & _ & Hev). }
    split_and!; [lia | done | |].
    + destruct (attempted e w req); split; intros H.
      * done.
      * by apply Hone.
      * rewrite Hzero in H; done.
      * by destruct H.
    + destruct (attempted e w req); split; intros H.
      * rewrite Hone in H; done.
      * done.
      * done.
      * by apply Hzero.
  - intros k d Hin Hok.
    destruct (Execute_stop e w req k d Hin) as (Hs & Ho & _ & Ha & Hi & Hb & Hl).
    { unfold stops_at. by rewrite Hok. }
    rewrite Hok in Hs. done.
  - intros p e0 e1 Hp Hn Ha H0 H1 H2 Hpat0 Hpat1 Hw0 Hw1.
    destruct (Execute_attempted _ _ _ Ha) as (st & tr & Hloop & ->).
    rewrite resolve_retryPolicy, Hp in Hloop. unfold maxAttemptsOf in Hloop.
    rewrite Hn in Hloop.
    change (wrap64 (1 + 3)) with 4 in Hloop.
    change (Z.to_nat 4) with 4%nat in Hloop.
    rewrite (loop_step_retry _ _ _ _ 3 _ 0 e0) in Hloop;
      [|done|done|lia|by apply isRetryable_pattern|done].
    rewrite (loop_step_retry _ _ _ _ 2 _ 1 e1) in Hloop;
      [|done|done|lia|by apply isRetryable_pattern|done].
    rewrite (loop_step_success _ _ _ _ 1 _ 2) in Hloop; [|done|done].
    cbv zeta in Hloop. cbn [fst snd] in Hloop. injection Hloop as <- <-.
    done.
Qed.

(** The scenario of C1 on the sample tool: two timeouts, then success. *)
Lemma C1_witness :
  Success (Execute default_executor (flaky_world 2)
             (request (base_tool "fetch" false (Some timeout_policy))
                      some_input None)).1 = true /\
  Attempts (Execute default_executor (flaky_world 2)
              (request (base_tool "fetch" false (Some timeout_policy))
                       some_input None)).1 = 3 /\
  invocations (Execute default_executor (flaky_world 2)
                 (request (base_tool "fetch" false (Some timeout_policy))
                          some_input None)).2 = 3%nat.
Proof.
  apply (proj2 (proj2 (proj2
           (C1_attempts_bounded_first_success_stops default_executor
              (flaky_world 2)
              (request (base_tool "fetch" false (Some timeout_policy))
                       some_input None))))
         timeout_policy (errorString "i/o timeout") (errorString "i/o timeout"));
    try reflexivity.
  - exists "timeout". split; [apply list_elem_of_here | by exists "i/o ", ""].
  - exists "timeout". split; [apply list_elem_of_here | by exists "i/o ", ""].
Defined.

(** C1 as stated fails: a tool without a retry policy is not called at
    all, where the claim says exactly once, when the caller's context is
    done during admission, and when the input lacks a required field. *)
Lemma C1_counterexample :
  toolRetryPolicy plain_tool = None /\
  invocations (Execute default_executor cancelled_world
                 (request plain_tool ∅ None)).2 = 0%nat /\
  toolRetryPolicy (base_tool "fetch" false None) = None /\
  invocations (Execute default_executor (flaky_world 0)
                 (request (base_tool "fetch" false None) ∅ None)).2 = 0%nat /\
  0%nat <> 1%nat.
Proof. split_and!; [reflexivity..|discriminate]. Qed.

(** ** The approval gate and the short circuits *)

(** The three ways of not being approved that the specification lists. *)
Lemma not_granted_cases tc :
  tc = None \/
  (exists c, tc = Some c /\ Metadata c !! "approved" = None) \/
  (exists c, tc = Some c /\ Metadata c !! "approved" = Some (VBool false)) ->
  ~ approval_granted tc.
Proof.
  intros [-> | [(c & -> & Hc) | (c & -> & Hc)]] (c' & Heq & Hc');
    simplify_eq.
Qed.

(** C3. When the tool requires approval and the execution context does
    not carry [Metadata["approved"]] as the boolean true (no context, no
    such key, or another value), [Execute] returns a failed result with
    [Attempts = 0] and an error, and never enters the tool. *)
Theorem C3_approval_required_not_granted
    (e : Executor) (w : World) (req : ExecuteRequest) :
  toolRequiresApproval (ReqTool req) = true ->
  ~ approval_granted (Context req) ->
  Success (Execute e w req).1 = false /\
  Attempts (Execute e w req).1 = 0 /\
  is_Some (Error (Execute e w req).1) /\
  invocations (Execute e w req).2 = 0%nat /\
  (forall k d, EvCall k d ∉ (Execute e w req).2).
Proof.
  intros Hreq Hno.
  assert (attempted e w req = false) as Hatt.
  { apply attempted_false_iff. right. right. done. }
  destruct (Execute_short_circuit _ _ _ Hatt) as (Hs & Ha & He & Hev).
  split_and!; try done.
  - by apply no_index_no_invocation.
  - intros k d Hin. by specialize (Hev _ Hin).
Qed.

(** C3 on a tool that requires approval, called without a context. *)
Lemma C3_witness :
  Success (Execute default_executor (flaky_world 0)
             (request (base_tool "deploy" true None) some_input None)).1 = false /\
  Attempts (Execute default_executor (flaky_world 0)
              (request (base_tool "deploy" true None) some_input None)).1 = 0 /\
  is_Some (Error (Execute default_executor (flaky_world 0)
              (request (base_tool "deploy" true None) some_input None)).1) /\
  invocations (Execute default_executor (flaky_world 0)
              (request (base_tool "deploy" true None) some_input None)).2 = 0%nat /\
  (forall k d, EvCall k d ∉ (Execute default_executor (flaky_world 0)
              (request (base_tool "deploy" true None) some_input None)).2).
Proof.
  apply (C3_approval_required_not_granted default_executor (flaky_world 0)
           (request (base_tool "deploy" true None) some_input None)).
  - reflexivity.
  - apply not_granted_cases. by left.
Defined.

(** A call that enters the loop with no iteration allowed succeeds. *)
Lemma Execute_no_iteration e w req :
  attempted e w req = true ->
  maxAttemptsOf (toolRetryPolicy (ReqTool req)) <= 0 ->
  Success (Execute e w req).1 = true.
Proof.
  intros Hatt Hmax.
  destruct (Execute_attempted _ _ _ Hatt) as (st & tr & Hloop & ->).
  rewrite resolve_retryPolicy in Hloop.
  replace (Z.to_nat _) with 0%nat in Hloop by lia.
  cbn in Hloop. by injection Hloop as <- <-.
Qed.

(** C4. [Execute] returns a failed result with [Attempts = 0] exactly in
    three cases: the caller's context is done while the call waits for a
    slot, a field the schema requires is absent from the input, approval
    is required and not granted.  In each of them the error is not nil
    and the tool is never entered. *)
Theorem C4_three_short_circuits
    (e : Executor) (w : World) (req : ExecuteRequest) :
  (Success (Execute e w req).1 = false /\ Attempts (Execute e w req).1 = 0
   <-> short_circuit w req) /\
  (attempted e w req = false <-> short_circuit w req) /\
  (short_circuit w req ->
   is_Some (Error (Execute e w req).1) /\
   invocations (Execute e w req).2 = 0%nat /\
   (forall k d, EvCall k d ∉ (Execute e w req).2)).
Proof.
  rewrite <- (attempted_false_iff e). split_and!; [|done|].
  - split.
    + intros [Hs Ha]. destruct (attempted e w req) eqn:Hatt; [|done].
      destruct (Z.le_gt_cases (maxAttemptsOf (toolRetryPolicy (ReqTool req))) 0)
        as [Hle | Hgt].
      * rewrite (Execute_no_iteration _ _ _ Hatt Hle) in Hs. done.
      * pose proof (Execute_invocations e w req) as [_ Hinv].
        destruct (Hinv Hatt) as [? ?]; lia.
    + intros Hatt.
      by destruct (Execute_short_circuit _ _ _ Hatt) as (Hs & Ha & _).
  - intros Hatt.
    destruct (Execute_short_circuit _ _ _ Hatt) as (_ & _ & He & Hev).
    split_and!; try done.
    + by apply no_index_no_invocation.
    + intros k d Hin. by specialize (Hev _ Hin).
Qed.

(** C4 on a call whose input lacks the required field. *)
Lemma C4_witness :
  is_Some (Error (Execute default_executor (flaky_world 0)
                    (request (base_tool "fetch" false None) ∅ None)).1) /\
  invocations (Execute default_executor (flaky_world 0)
                 (request (base_tool "fetch" false None) ∅ None)).2 = 0%nat /\
  (forall k d, EvCall k d ∉ (Execute default_executor (flaky_world 0)
                 (request (base_tool "fetch" false None) ∅ None)).2).
Proof.
  apply (proj2 (proj2 (C4_three_short_circuits default_executor (flaky_world 0)
                  (request (base_tool "fetch" false None) ∅ None)))).
  right. left. exists {[ "type" := VString "object";
                         "required" := VStrings ["input"] ]}, "input".
  split_and!; [reflexivity | apply list_elem_of_here | reflexivity].
Defined.

(** C10. Whatever the path, [Success] is true exactly when [Error] is nil. *)
Theorem C10_success_iff_error_nil
    (e : Executor) (w : World) (req : ExecuteRequest) :
  Success (Execute e w req).1 = true <-> Error (Execute e w req).1 = None.
Proof.
  destruct (attempted e w req) eqn:Hatt.
  - destruct (Execute_attempted _ _ _ Hatt) as (st & tr & _ & ->). cbn.
    by destruct (execErr st).
  - destruct (Execute_short_circuit _ _ _ Hatt) as (Hs & _ & [err He] & _).
    rewrite Hs, He. done.
Qed.

(** C6. An error is retryable under a policy exactly when the policy
    lists no pattern or the error's message contains one of its patterns.
    An attempt that fails with an error that is not retryable is the last
    thing the loop does: the result carries that error and this
    attempt's ordinal, no backoff wait and no further attempt follow. *)
Theorem C6_retryable_iff_pattern_matches (err : error) (p : RetryPolicy) :
  (isRetryable err (Some p) = true <->
   RetryableErrors p = [] \/
   exists pattern, pattern ∈ RetryableErrors p /\
                   substring_of pattern (Error_ err)) /\
  (forall e w req k d,
     toolRetryPolicy (ReqTool req) = Some p ->
     EvCall k d ∈ (Execute e w req).2 ->
     (tool_Execute w k).2 = Some err ->
     isRetryable err (Some p) = false ->
     Success (Execute e w req).1 = false /\
     Error (Execute e w req).1 = Some err /\
     Attempts (Execute e w req).1 = k + 1 /\
     Z.of_nat (invocations (Execute e w req).2) = k + 1 /\
     (EvBackoff k ∉ (Execute e w req).2) /\
     (forall j d', EvCall j d' ∈ (Execute e w req).2 -> j <= k)).
Proof.
  split; [apply isRetryable_spec|].
  intros e w req k d Hp Hin Hout Hno.
  destruct (Execute_stop e w req k d Hin) as (Hs & _ & He & Ha & Hi & Hb & Hl).
  { unfold stops_at. by rewrite Hout, Hp. }
  rewrite Hout in Hs, He. done.
Qed.

(** C6 on an error that matches none of the patterns of the policy. *)
Lemma C6_witness :
  Success (Execute default_executor denied_world
             (request (base_tool "fetch" false (Some timeout_policy))
                      some_input None)).1 = false /\
  Error (Execute default_executor denied_world
           (request (base_tool "fetch" false (Some timeout_policy))
                    some_input None)).1
    = Some (errorString "permission denied") /\
  Attempts (Execute default_executor denied_world
              (request (base_tool "fetch" false (Some timeout_policy))
                       some_input None)).1 = 0 + 1 /\
  Z.of_nat (invocations (Execute default_executor denied_world
              (request (base_tool "fetch" false (Some timeout_policy))
                       some_input None)).2) = 0 + 1 /\
  (EvBackoff 0 ∉ (Execute default_executor denied_world
              (request (base_tool "fetch" false (Some timeout_policy))
                       some_input None)).2) /\
  (forall j d', EvCall j d' ∈ (Execute default_executor denied_world
              (request (base_tool "fetch" false (Some timeout_policy))
                       some_input None)).2 -> j <= 0).
Proof.
  apply (proj2 (C6_retryable_iff_pattern_matches
                  (errorString "permission denied") timeout_policy)
           default_executor denied_world
           (request (base_tool "fetch" false (Some timeout_policy))
                    some_input None)
           0 (Some (30 * Second))).
  - reflexivity.
  - vm_compute. apply list_elem_of_further, list_elem_of_here.
  - reflexivity.
  - reflexivity.
Defined.

(** ** The effective timeout *)

Lemma resolve_timeout e req :
  timeout (resolve e req) = spec_timeout (DefaultTimeout (config e)) req.
Proof.
  unfold resolve, spec_timeout. destruct (enhanced (ReqTool req)) as [et|]; cbn.
  - destruct (IsLongRunning et && (Timeout et =? 0) && (TimeoutOverride req =? 0))
      eqn:Hlong; [|done].
    apply andb_true_iff in Hlong as [_ Hov]. apply Z.eqb_eq in Hov.
    rewrite Hov. done.
  - done.
Qed.

Lemma Execute_call_deadline e w req k d :
  EvCall k d ∈ (Execute e w req).2 ->
  d = attempt_deadline (timeout (resolve e req)).
Proof.
  intros Hin. destruct (attempted e w req) eqn:Hatt.
  - destruct (Execute_attempted _ _ _ Hatt) as (st & tr & Hloop & Heq).
    rewrite Heq in Hin. cbn [snd] in Hin.
    rewrite elem_of_holding in Hin by done.
    by eapply loop_call_deadline.
  - destruct (Execute_short_circuit _ _ _ Hatt) as (_ & _ & _ & Hev).
    by specialize (Hev _ Hin).
Qed.

(** C2, amended. For an executor made by [NewExecutor cfg] the effective
    timeout is the one the specification describes, the engine default
    being the configured [DefaultTimeout] when that is positive and 60
    seconds otherwise; every attempt runs under it, with no deadline
    when it is 0. *)
Theorem C2_effective_timeout
    (cfg : ExecutorConfig) (w : World) (req : ExecuteRequest) :
  let e := NewExecutor cfg in
  let dflt := if DefaultTimeout cfg <=? 0 then 60 * Second
              else DefaultTimeout cfg in
  timeout (resolve e req) = spec_timeout dflt req /\
  (forall k d, EvCall k d ∈ (Execute e w req).2 ->
     d = if 0 <? spec_timeout dflt req then Some (spec_timeout dflt req)
         else None).
Proof.
  cbv zeta. split.
  - by rewrite resolve_timeout.
  - intros k d Hin. apply Execute_call_deadline in Hin.
    by rewrite resolve_timeout in Hin.
Qed.

(** C2 as stated fails: on an executor configured with a default timeout
    of 10 s, a plain tool called without override runs its attempt under
    a deadline of 10 s, where the claim says 60 s. *)
Lemma C2_counterexample :
  timeout (resolve ten_second_executor (request plain_tool ∅ None))
    = 10 * Second /\
  spec_timeout (60 * Second) (request plain_tool ∅ None) = 60 * Second /\
  (Execute ten_second_executor (flaky_world 0) (request plain_tool ∅ None)).2
    = [EvAcquire; EvCall 0 (Some (10 * Second)); EvReturn 0; EvRelease] /\
  10 * Second <> 60 * Second.
Proof. split_and!; [reflexivity..|discriminate]. Qed.

(** ** The duration of a call *)

(** Once the call holds a slot and its input is valid, [Duration] is
    [FinishedAt] minus [StartedAt]. *)
Lemma Execute_duration_set e w req :
  slot_wait w = None ->
  ValidateInput (ReqTool req) (Input req) = None ->
  Duration_ (Execute e w req).1
    = Sub (FinishedAt (Execute e w req).1) (StartedAt (Execute e w req).1).
Proof.
  unfold Execute, executeHolding. intros -> ->.
  destruct (requiresApproval _ && negb _); [done|].
  by destruct (attemptLoop _ _ _ _ _ _).
Qed.

(** C7 fails on two of the short circuits.  A call whose input lacks a
    required field, or whose context is done during admission, returns
    with [StartedAt] and [FinishedAt] set and [Duration] left at zero:
    here the call took 5000 ns and reports 0. *)
Lemma C7_duration_left_zero :
  let missing := (Execute default_executor (flaky_world 0)
                    (request (base_tool "fetch" false None) ∅ None)).1 in
  let cancelled := (Execute default_executor cancelled_world
                      (request (base_tool "fetch" false None) some_input None)).1 in
  (Success missing = false /\ Attempts missing = 0 /\
   Error missing = Some (errorString "missing required field: input") /\
   Duration_ missing = 0 /\
   Sub (FinishedAt missing) (StartedAt missing) = 5000) /\
  (Success cancelled = false /\ Attempts cancelled = 0 /\
   Error cancelled = Some (errorString "context canceled") /\
   Duration_ cancelled = 0 /\
   Sub (FinishedAt cancelled) (StartedAt cancelled) = 5000).
Proof. cbv zeta. split_and!; reflexivity. Qed.

(** ** Batches *)

Section Sorting.
Context {A : Type} (less : A -> A -> bool).


End Sorting.










(** The sample batch is dispatched urgent first, then the two requests of
    priority 0 in their input order. *)
Example dispatch_sample_batch : idx <$> dispatch sample_batch = [1; 0; 2]%nat.
Proof. reflexivity. Qed.


(** ** The registry *)

(** C8, amended. [Create] leaves the registry as it is.  When a factory
    is registered under [name] the result is what the factory returns for
    [config], tool and error alike; otherwise, when an instance is
    registered, the result is that instance, without error and whatever
    [config]; when neither is registered the result is no tool and a
    [ToolNotFoundError] naming [name].  That last result is returned
    exactly when neither is registered or the registered factory itself
    returns it. *)
Theorem C8_create_factory_then_instance
    (r : Registry) (name : string) (config : option (gmap string Value)) :
  (Create r name config).2 = r /\
  (forall factory, factories r !! name = Some factory ->
     (Create r name config).1 = factory config) /\
  (forall instance, factories r !! name = None ->
     instances r !! name = Some instance ->
     (Create r name config).1 = (Some instance, None)) /\
  (factories r !! name = None -> instances r !! name = None ->
     (Create r name config).1 = (None, Some (ToolNotFoundError name)) /\
     Error_ (ToolNotFoundError name) = "tool not found: " +:+ name) /\
  ((Create r name config).1 = (None, Some (ToolNotFoundError name)) <->
   (factories r !! name = None /\ instances r !! name = None) \/
   (exists factory, factories r !! name = Some factory /\
                    factory config = (None, Some (ToolNotFoundError name)))).
Proof.
  unfold Create.
  destruct (factories r !! name) as [factory|] eqn:Hf;
    [|destruct (instances r !! name) as [instance|] eqn:Hi]; cbn;
    split_and!; try done; try (intros; simplify_eq; done).
  - split.
    + intros Heq. right. by exists factory.
    + intros [[? _] | (f & [= <-] & Heq)]; done.
  - split; [done|]. intros [[_ ?] | (f & ? & _)]; done.
  - split; [by left | done].
Qed.

(** C8 as stated fails: with a factory registered under ["ghost"],
    [Create] returns a [ToolNotFoundError] naming ["ghost"], the
    factory's own. *)
Lemma C8_counterexample :
  is_Some (factories ghost_registry !! "ghost") /\
  (Create ghost_registry "ghost" None).1
    = (None, Some (ToolNotFoundError "ghost")).
Proof. split; [by eexists | reflexivity]. Qed.

(** C8 on a registry holding an instance only: the configuration is
    ignored. *)
Lemma C8_witness :
  (Create (RegisterInstance plain_tool NewRegistry) "plain" (Some some_input)).1
    = (Some plain_tool, None).
Proof.
  apply (proj1 (proj2 (proj2 (C8_create_factory_then_instance
           (RegisterInstance plain_tool NewRegistry) "plain" (Some some_input))))
         plain_tool); reflexivity.
Defined.

(** ** The admission pool *)

(** The events of a call: none when its context is done before admission,
    otherwise a body between one acquisition and one release. *)
Lemma Execute_events_shape e w req :
  (is_Some (slot_wait w) /\ (Execute e w req).2 = []) \/
  (slot_wait w = None /\
   exists body, (Execute e w req).2 = EvAcquire :: body ++ [EvRelease] /\
                body_ok false body = true).
Proof.
  unfold Execute. destruct (slot_wait w) as [err|]; [left; by eauto|].
  right. split; [done|]. unfold executeHolding.
  destruct (ValidateInput _ _); [by exists []|].
  destruct (requiresApproval _ && negb _); [by exists []|].
  destruct (attemptLoop _ _ _ _ _ _) as [st tr] eqn:Hloop.
  exists tr. split; [done|]. by eapply loop_body_ok.
Qed.

Lemma spawn_thread_ok e job : thread_ok (spawn_thread e job).
Proof.
  left. cbn. split_and!; [done..|].
  destruct (Execute_events_shape e job.1 job.2) as [[_ ->] | [_ Hbody]]; eauto.
Qed.

Lemma body_ok_no_semaphore inside body :
  body_ok inside body = true -> (EvAcquire ∉ body) /\ (EvRelease ∉ body).
Proof.
  revert inside. induction body as [|ev body IH]; intros inside Hok.
  - split; by intros ?%elem_of_nil.
  - destruct ev; cbn in Hok; try done;
      apply andb_true_iff in Hok as [_ Hok]; destruct (IH _ Hok);
      split; intros [?|?]%elem_of_cons; done.
Qed.

(** A goroutine holds a slot exactly between its acquisition and its
    release, and is inside the tool only while it holds one. *)
Lemma thread_ok_held t :
  thread_ok t ->
  held t = (if holds_slot t then 1 else 0)%nat /\
  (running t = true -> held t = 1%nat).
Proof.
  unfold holds_slot.
  intros [(Hh & Hr & Hp) | (Hh & body & Hp & Hok)].
  - rewrite Hh, Hr. split; [|done]. rewrite bool_decide_eq_false_2; [done|].
    intros [Hrel Hacq]. destruct Hp as [Hp | (body & Hp & _)]; rewrite Hp in *.
    + by apply elem_of_nil in Hrel.
    + apply Hacq, list_elem_of_here.
  - rewrite Hh. split; [|done]. rewrite bool_decide_eq_true_2; [done|].
    destruct (body_ok_no_semaphore _ _ Hok) as [Hacq Hrel]. rewrite Hp. split.
    + apply elem_of_app. right. apply list_elem_of_here.
    + intros [?|?%list_elem_of_singleton]%elem_of_app; done.
Qed.

(** One event of a goroutine: the shape is kept, the semaphore moves by
    what the goroutine's holding moves, and stays within its capacity. *)
Lemma thread_step_ok cap n t n' t' :
  thread_ok t -> thread_step cap n t = Some (n', t') ->
  thread_ok t' /\
  (n' + held t = n + held t')%nat /\
  (Z.of_nat n <= cap -> Z.of_nat n' <= cap) /\
  (exists ev, pending t = ev :: pending t').
Proof.
  unfold thread_step.
  intros [(Hh & Hr & Hp) | (Hh & body & Hp & Hok)] Hstep.
  - destruct Hp as [Hp | (body & Hp & Hok)]; rewrite Hp in Hstep; [done|].
    destruct (Z.of_nat n <? cap) eqn:Hfree; [|done].
    apply Z.ltb_lt in Hfree. injection Hstep as <- <-. cbn.
    split_and!; [|lia|lia|by eauto].
    right. cbn. split; [by rewrite Hh|]. exists body. by rewrite Hr.
  - rewrite Hp in Hstep. destruct body as [|ev body].
    + cbn in Hstep, Hok. destruct n as [|m]; [done|].
      injection Hstep as <- <-. cbn.
      split_and!; [|lia|lia|by eauto].
      left. cbn. split_and!; [by rewrite Hh| |by left].
      by destruct (running t).
    + destruct ev; cbn in Hstep, Hok; try done;
        apply andb_true_iff in Hok as [Hin Hok];
        injection Hstep as <- <-; cbn;
        (split_and!; [|lia|lia|by eauto]);
        right; cbn; (split; [done|]); exists body; (split; [done|]);
        destruct (running t); done.
Qed.

Lemma slots_held_insert ts i t t' :
  ts !! i = Some t ->
  (slots_held (<[i := t']> ts) + held t = slots_held ts + held t')%nat.
Proof.
  revert i. induction ts as [|u ts IH]; intros i Hi; [done|].
  destruct i as [|i].
  - injection Hi as ->. cbn. lia.
  - change (<[S i := t']> (u :: ts)) with (u :: <[i := t']> ts).
    cbn [slots_held]. specialize (IH i Hi). lia.
Qed.

Lemma in_flight_le_held ts :
  Forall thread_ok ts -> (in_flight ts <= slots_held ts)%nat.
Proof.
  induction 1 as [|t ts Ht _ IH]; cbn; [done|].
  destruct (thread_ok_held _ Ht) as [_ Hrun].
  destruct (running t); [rewrite Hrun by done|]; lia.
Qed.

Lemma pool_inv_spawn cfg jobs :
  pool_inv (NewExecutor cfg) jobs (spawn (NewExecutor cfg) jobs).
Proof.
  unfold pool_inv, spawn. cbn [sem threads]. split_and!.
  - induction jobs as [|job jobs IH]; [done|]. cbn. by rewrite <- IH.
  - cbn. destruct (MaxConcurrency cfg <=? 0) eqn:Hc; [done|].
    apply Z.leb_gt in Hc. lia.
  - apply Forall_fmap, Forall_forall. intros job _. apply spawn_thread_ok.
  - intros i t Hi. rewrite list_lookup_fmap in Hi.
    destruct (jobs !! i) as [job|]; [|done]. injection Hi as <-.
    by exists job.
Qed.

Lemma pool_inv_step e jobs s s' :
  pool_inv e jobs s -> step (semaphore_cap e) s s' -> pool_inv e jobs s'.
Proof.
  intros (Hsem & Hcap & Hok & Hjobs) Hstep.
  destruct Hstep as [s i t n' t' Hi Hstep].
  pose proof (proj1 (Forall_lookup _ _) Hok _ _ Hi) as Ht.
  destruct (thread_step_ok _ _ _ _ _ Ht Hstep) as (Ht' & Hn & Hc & ev & Hev).
  pose proof (slots_held_insert _ _ _ t' Hi) as Hins.
  unfold pool_inv. cbn [sem threads]. split_and!.
  - lia.
  - by apply Hc.
  - by apply Forall_insert.
  - intros j u Hj. apply list_lookup_insert_Some in Hj
      as [(-> & -> & _) | (Hne & Hj)]; [|by eauto].
    destruct (Hjobs _ _ Hi) as (job & Hjob & Hsuf). exists job. split; [done|].
    etrans; [|exact Hsuf]. rewrite Hev. by apply suffix_cons_r.
Qed.

Lemma pool_inv_reachable cfg jobs s :
  rtc (step (semaphore_cap (NewExecutor cfg))) (spawn (NewExecutor cfg) jobs) s ->
  pool_inv (NewExecutor cfg) jobs s.
Proof.
  revert s. apply rtc_ind_r.
  - apply pool_inv_spawn.
  - intros y z _ Hstep IH. by eapply pool_inv_step.
Qed.

(** C9. However many calls are submitted to an executor whose pool has
    capacity [k] ([MaxConcurrency] when positive, 5 otherwise), in every
    state they can reach the tool executions in flight are at most the
    slots in use, which are at most [k].  The slots in use are those the
    calls hold; a call holds one slot from its admission to its return
    and none otherwise, and is inside the tool only while it holds one.
    A call whose context is done before admission acquires and releases
    nothing and never holds a slot. *)
Theorem C9_in_flight_never_exceeds_pool
    (cfg : ExecutorConfig) (jobs : list (World * ExecuteRequest)) (s : Sys) :
  let e := NewExecutor cfg in
  rtc (step (semaphore_cap e)) (spawn e jobs) s ->
  semaphore_cap e = (if MaxConcurrency cfg <=? 0 then 5 else MaxConcurrency cfg) /\
  (in_flight (threads s) <= sem s)%nat /\
  Z.of_nat (sem s) <= semaphore_cap e /\
  sem s = slots_held (threads s) /\
  (forall t, t ∈ threads s ->
     held t = (if holds_slot t then 1 else 0)%nat /\
     (running t = true -> held t = 1%nat)) /\
  (forall i w req t,
     jobs !! i = Some (w, req) -> is_Some (slot_wait w) ->
     threads s !! i = Some t ->
     (Execute e w req).2 = [] /\ pending t = [] /\ held t = 0%nat /\
     running t = false).
Proof.
  cbv zeta. intros Hrtc.
  destruct (pool_inv_reachable _ _ _ Hrtc) as (Hsem & Hcap & Hok & Hjobs).
  split_and!; try done.
  - rewrite Hsem. by apply in_flight_le_held.
  - intros t Ht. apply thread_ok_held.
    by apply (proj1 (Forall_forall _ _) Hok).
  - intros i w req t Hjob Hdone Ht.
    destruct (Hjobs _ _ Ht) as (job & Hjob' & Hsuf).
    rewrite Hjob in Hjob'. injection Hjob' as <-. cbn [fst snd] in Hsuf.
    destruct (Execute_events_shape (NewExecutor cfg) w req)
      as [[_ Hnil] | [Hnone _]].
    + rewrite Hnil in Hsuf. apply suffix_nil_inv in Hsuf.
      pose proof (proj1 (Forall_lookup _ _) Hok _ _ Ht) as Hth.
      destruct (thread_ok_held _ Hth) as [Hheld Hrun].
      destruct Hth as [(Hh & Hr & _) | (_ & body & Hp & _)].
      * done.
      * rewrite Hsuf in Hp. by destruct body.
    + rewrite Hnone in Hdone. by destruct Hdone.
Qed.

(** With one slot: the first call acquires it and enters the tool, the
    second stays queued. *)
Lemma sample_running_reachable :
  rtc (step (semaphore_cap single_slot_executor))
      (spawn single_slot_executor sample_jobs) sample_running.
Proof.
  apply (rtc_l _ _ sample_acquired).
  { exact (step_thread 1 (spawn single_slot_executor sample_jobs) 0
             (spawn_thread single_slot_executor
                (flaky_world 0, request plain_tool ∅ None))
             1
             {| pending := [EvCall 0 (Some (60 * Second)); EvReturn 0; EvRelease];
                held := 1; running := false |}
             eq_refl eq_refl). }
  apply (rtc_l _ _ sample_running).
  { exact (step_thread 1 sample_acquired 0
             {| pending := [EvCall 0 (Some (60 * Second)); EvReturn 0; EvRelease];
                held := 1; running := false |}
             1
             {| pending := [EvReturn 0; EvRelease]; held := 1; running := true |}
             eq_refl eq_refl). }
  apply rtc_refl.
Qed.

(** With the slot taken the second call cannot be admitted. *)
Example second_call_waits :
  thread_step (semaphore_cap single_slot_executor) (sem sample_running)
    (spawn_thread single_slot_executor (flaky_world 0, request plain_tool ∅ None))
  = None.
Proof. reflexivity. Qed.

(** C9 in the state where the single slot is taken. *)
Lemma C9_witness :
  (in_flight (threads sample_running) <= sem sample_running)%nat /\
  Z.of_nat (sem sample_running) <= semaphore_cap single_slot_executor /\
  sem sample_running = slots_held (threads sample_running).
Proof.
  destruct (C9_in_flight_never_exceeds_pool
              {| MaxConcurrency := 1; DefaultTimeout := 0 |}
              sample_jobs sample_running sample_running_reachable)
    as (_ & Hfly & Hcap & Hsem & _).
  exact (conj Hfly (conj Hcap Hsem)).
Defined.

(** X1. Apart from the two early returns, a call reports as [Duration]
    the difference of [FinishedAt] and [StartedAt]. *)
Theorem X1_duration_once_validated
    (e : Executor) (w : World) (req : ExecuteRequest) :
  slot_wait w = None ->
  ValidateInput (ReqTool req) (Input req) = None ->
  Duration_ (Execute e w req).1
    = Sub (FinishedAt (Execute e w req).1) (StartedAt (Execute e w req).1).
Proof. apply Execute_duration_set. Qed.

(** X1 on the approval-denied return. *)
Lemma X1_witness :
  Duration_ (Execute default_executor (flaky_world 0)
               (request (base_tool "deploy" true None) some_input None)).1
  = Sub (FinishedAt (Execute default_executor (flaky_world 0)
               (request (base_tool "deploy" true None) some_input None)).1)
        (StartedAt (Execute default_executor (flaky_world 0)
               (request (base_tool "deploy" true None) some_input None)).1).
Proof.
  apply (X1_duration_once_validated default_executor (flaky_world 0)
           (request (base_tool "deploy" true None) some_input None));
    reflexivity.
Defined.

(** ** How the attempt loop ends *)

Section AttemptLoopOutcomes.
Variables (w : World) (policy : option RetryPolicy)
          (deadline : option Duration) (maxAttempts : Z).

#[local] Abbreviation loop := (attemptLoop w policy deadline maxAttempts).

Ltac loop_step n :=
  cbn [attemptLoop];
  destruct (tool_Execute w (maxAttempts - Z.of_nat (S n))) as [out [e|]] eqn:Hout;
  [ destruct (maxAttempts - Z.of_nat (S n) <? maxAttempts - 1) eqn:Hlast;
    [ destruct (isRetryable e policy) eqn:Hretry; cbn [negb];
      [ destruct (backoff_wait w (maxAttempts - Z.of_nat (S n))) as [cerr|] eqn:Hwait | ]
    | ]
  | ].

Ltac loop_rec n :=
  try destruct (attemptLoop w policy deadline maxAttempts n _)
    as [st2 tr2] eqn:Hrec;
  cbn [app]; intros Heq; injection Heq as <- <-.

Ltac split_in H :=
  repeat (apply elem_of_cons in H as [? | H]);
  try (by apply elem_of_nil in H); simplify_eq.

(** The state on leaving the loop describes the last attempt made: its
    ordinal, its output, and its error unless the wait after it was cut
    short by the caller's context. *)
Lemma loop_last n st st' tr :
  loop n st = (st', tr) -> n <> 0%nat ->
  EvCall (attempts st' - 1) deadline ∈ tr /\
  output st' = (tool_Execute w (attempts st' - 1)).1 /\
  (execErr st' = (tool_Execute w (attempts st' - 1)).2 \/
   exists cerr, backoff_wait w (attempts st' - 1) = Some cerr /\
                execErr st' = Some cerr /\
                EvBackoff (attempts st' - 1) ∈ tr).
Proof.
  revert st st' tr. induction n as [|n IH]; intros st st' tr; [done|].
  loop_step n; loop_rec n; intros _; cbn [attempts output execErr].
  - replace (maxAttempts - Z.of_nat (S n) + 1 - 1)
      with (maxAttempts - Z.of_nat (S n)) by lia.
    rewrite Hout. split_and!; [apply list_elem_of_here | done |].
    right. exists cerr. split_and!; [done..|].
    do 2 apply list_elem_of_further. apply list_elem_of_here.
  - apply Z.ltb_lt in Hlast. destruct n as [|n']; [lia|].
    destruct (IH _ _ _ Hrec) as (Hc & Ho & He); [done|].
    split_and!; [by do 3 apply list_elem_of_further | done |].
    destruct He as [He | (c & ? & ? & ?)]; [by left|]. right. exists c.
    split_and!; [done..|]. by do 3 apply list_elem_of_further.
  - replace (maxAttempts - Z.of_nat (S n) + 1 - 1)
      with (maxAttempts - Z.of_nat (S n)) by lia.
    rewrite Hout. split_and!; [apply list_elem_of_here | done | by left].
  - apply Z.ltb_ge in Hlast. destruct n as [|n']; [|lia].
    cbn in Hrec. injection Hrec as <- <-. cbn [attempts output execErr].
    replace (maxAttempts - Z.of_nat 1 + 1 - 1)
      with (maxAttempts - Z.of_nat 1) by lia.
    rewrite Hout. split_and!; [apply list_elem_of_here | done | by left].
  - replace (maxAttempts - Z.of_nat (S n) + 1 - 1)
      with (maxAttempts - Z.of_nat (S n)) by lia.
    rewrite Hout. split_and!; [apply list_elem_of_here | done | by left].
Qed.

(** A backoff wait cut short by the caller's context is the last thing
    the loop does. *)
Lemma loop_cancelled n st st' tr k cancel :
  loop n st = (st', tr) -> EvBackoff k ∈ tr -> backoff_wait w k = Some cancel ->
  st' = {| output := (tool_Execute w k).1; execErr := Some cancel;
           attempts := k + 1 |} /\
  (forall ev j, ev ∈ tr -> ev_index ev = Some j -> j <= k).
Proof.
  revert st st' tr. induction n as [|n IH]; intros st st' tr.
  - cbn. intros [= <- <-] H. by apply elem_of_nil in H.
  - loop_step n; loop_rec n; intros Hin Hc; split_in Hin.
    + rewrite Hout. split; [done|].
      intros ev j Hev Hj. split_in Hev; cbn in Hj; simplify_eq; lia.
    + destruct (IH _ _ _ Hrec Hin Hc) as (-> & Hle).
      pose proof (loop_index_range _ _ _ _ _ _ _ _ _ k Hrec Hin eq_refl) as Hk.
      split; [done|]. intros ev j Hev Hj.
      split_in Hev; try (cbn in Hj; simplify_eq; lia). eauto.
    + apply Z.ltb_ge in Hlast. destruct n as [|n']; [|lia].
      cbn in Hrec. simplify_eq. by apply elem_of_nil in Hin.
Qed.

(** When every attempt fails, every failure but the last is retried and
    no wait is cut short, all the iterations are made. *)
Lemma loop_exhausted n st :
  n <> 0%nat ->
  (forall k, maxAttempts - Z.of_nat n <= k < maxAttempts ->
     exists err, (tool_Execute w k).2 = Some err /\
       (k < maxAttempts - 1 ->
        isRetryable err policy = true /\ backoff_wait w k = None)) ->
  exists tr,
    loop n st = ({| output := (tool_Execute w (maxAttempts - 1)).1;
                    execErr := (tool_Execute w (maxAttempts - 1)).2;
                    attempts := maxAttempts |}, tr) /\
    invocations tr = n /\ S (waits tr) = n.
Proof.
  revert st. induction n as [|n IH]; intros st Hn Hall; [done|].
  destruct (Hall (maxAttempts - Z.of_nat (S n))) as (err & Herr & Hretry); [lia|].
  destruct n as [|n'].
  - exists [EvCall (maxAttempts - 1) deadline; EvReturn (maxAttempts - 1)].
    split; [|done]. cbn [attemptLoop].
    change (Z.of_nat 1) with 1 in *.
    destruct (tool_Execute w (maxAttempts - 1)) as [out x] eqn:Hout.
    cbn in Herr. subst x. rewrite Z.ltb_irrefl. cbn. do 2 f_equal. lia.
  - destruct Hretry as [Hr Hw]; [lia|].
    rewrite (loop_step_retry _ _ _ _ _ _ _ err eq_refl Herr) by (done || lia).
    destruct (IH {| output := (tool_Execute w (maxAttempts - Z.of_nat (S (S n')))).1;
                    execErr := Some err;
                    attempts := maxAttempts - Z.of_nat (S (S n')) + 1 |})
      as (tr & -> & Hi & Hb); [done| |].
    { intros k Hk. apply Hall. lia. }
    cbv zeta. cbn [fst snd]. eexists. split; [done|].
    cbn [invocations waits is_call]. lia.
Qed.
End AttemptLoopOutcomes.

Lemma wrap64_small x : - 2 ^ 63 <= x < 2 ^ 63 -> wrap64 x = x.
Proof. intros Hx. unfold wrap64. rewrite Z.mod_small by lia. lia. Qed.

Lemma waits_holding body :
  waits (EvAcquire :: body ++ [EvRelease]) = waits body.
Proof.
  cbn. induction body as [|ev body IH]; [done|]. destruct ev; cbn; by rewrite ?IH.
Qed.

(** X2. When the attempt loop runs, the result describes the last
    attempt made: [Attempts] is its ordinal and the number of calls of
    the tool, [Output] is what it returned, and [Error] is its error,
    unless the backoff wait after it was cut short, in which case [Error]
    is the error of the caller's context. *)
Theorem X2_result_describes_last_attempt
    (e : Executor) (w : World) (req : ExecuteRequest) :
  attempted e w req = true ->
  0 < maxAttemptsOf (toolRetryPolicy (ReqTool req)) ->
  let res := (Execute e w req).1 in
  let tr := (Execute e w req).2 in
  let k := Attempts res - 1 in
  0 <= k < maxAttemptsOf (toolRetryPolicy (ReqTool req)) /\
  Z.of_nat (invocations tr) = Attempts res /\
  (exists d, EvCall k d ∈ tr) /\
  Output res = (tool_Execute w k).1 /\
  (Error res = (tool_Execute w k).2 \/
   exists cerr, backoff_wait w k = Some cerr /\ Error res = Some cerr /\
                EvBackoff k ∈ tr).
Proof.
  intros Hatt Hpos. cbv zeta.
  destruct (Execute_invocations e w req) as [_ Hinv].
  destruct (Hinv Hatt Hpos) as [Hcount _].
  destruct (Execute_attempted _ _ _ Hatt) as (st & tr & Hloop & Heq).
  rewrite Heq in *. cbn [fst snd Attempts Output Error] in *.
  rewrite resolve_retryPolicy in Hloop.
  destruct (loop_last _ _ _ _ _ _ _ _ Hloop) as (Hcall & Hout & Herr); [lia|].
  pose proof (loop_index_range _ _ _ _ _ _ _ _ _ _ Hloop Hcall eq_refl) as Hk.
  split_and!; [lia | lia | done | | done |].
  - eexists. rewrite elem_of_holding by done. exact Hcall.
  - destruct Herr as [Herr | (c & Hw & Hc & Hb)]; [by left|]. right.
    exists c. split_and!; [done..|]. by rewrite elem_of_holding.
Qed.

(** X2 on the sample tool, two timeouts and a success. *)
Lemma X2_witness :
  Output (Execute default_executor (flaky_world 2)
            (request (base_tool "fetch" false (Some timeout_policy))
                     some_input None)).1
  = (tool_Execute (flaky_world 2)
       (Attempts (Execute default_executor (flaky_world 2)
                    (request (base_tool "fetch" false (Some timeout_policy))
                             some_input None)).1 - 1)).1.
Proof.
  exact (proj1 (proj2 (proj2 (proj2
    (X2_result_describes_last_attempt default_executor (flaky_world 2)
       (request (base_tool "fetch" false (Some timeout_policy)) some_input None)
       eq_refl eq_refl))))).
Defined.

(** Every attempt allowed fails and is retried: the loop runs to its end. *)
Lemma Execute_all_attempts_fail
    (e : Executor) (w : World) (req : ExecuteRequest) (p : RetryPolicy) :
  attempted e w req = true ->
  toolRetryPolicy (ReqTool req) = Some p ->
  0 <= MaxRetries p < 2 ^ 63 - 1 ->
  (forall k, 0 <= k <= MaxRetries p ->
     exists err, (tool_Execute w k).2 = Some err /\
       (k < MaxRetries p ->
        isRetryable err (Some p) = true /\ backoff_wait w k = None)) ->
  Success (Execute e w req).1 = false /\
  Attempts (Execute e w req).1 = 1 + MaxRetries p /\
  Error (Execute e w req).1 = (tool_Execute w (MaxRetries p)).2 /\
  Output (Execute e w req).1 = (tool_Execute w (MaxRetries p)).1 /\
  Z.of_nat (invocations (Execute e w req).2) = 1 + MaxRetries p /\
  Z.of_nat (waits (Execute e w req).2) = MaxRetries p.
Proof.
  intros Hatt Hp Hn Hall.
  destruct (Execute_attempted _ _ _ Hatt) as (st & tr & Hloop & ->).
  rewrite resolve_retryPolicy, Hp in Hloop. unfold maxAttemptsOf in Hloop.
  rewrite wrap64_small in Hloop by lia.
  destruct (loop_exhausted w (Some p)
              (attempt_deadline (timeout (resolve e req))) (1 + MaxRetries p)
              (Z.to_nat (1 + MaxRetries p))
              {| output := VNil; execErr := None; attempts := 0 |})
    as (tr' & Hloop' & Hi & Hb); [lia| |].
  { intros k Hk. destruct (Hall k) as (err & Herr & Hr); [lia|].
    exists err. split; [done|]. intros Hlt. apply Hr. lia. }
  rewrite Hloop' in Hloop. injection Hloop as <- <-.
  replace (1 + MaxRetries p - 1) with (MaxRetries p) by lia.
  cbn [fst snd Success Attempts Error Output execErr output attempts].
  rewrite waits_holding. cbn [invocations is_call].
  rewrite invocations_app. cbn [invocations is_call].
  destruct (Hall (MaxRetries p)) as (err & -> & _); [lia|].
  split_and!; try done; lia.
Qed.

(** X3. When every attempt allowed by a policy with
    [0 <= MaxRetries < 2^63 - 1] fails, every failure but the last is
    retryable and no backoff wait is cut short, the tool is called
    [1 + MaxRetries] times with [MaxRetries] waits in between, and the
    result is a failure with [Attempts = 1 + MaxRetries] that carries the
    output and the error of the last attempt. *)
Theorem X3_exhausted_retries
    (e : Executor) (w : World) (req : ExecuteRequest) (p : RetryPolicy) :
  attempted e w req = true ->
  toolRetryPolicy (ReqTool req) = Some p ->
  0 <= MaxRetries p < 2 ^ 63 - 1 ->
  (forall k, 0 <= k <= MaxRetries p ->
     exists err, (tool_Execute w k).2 = Some err /\
       (k < MaxRetries p ->
        isRetryable err (Some p) = true /\ backoff_wait w k = None)) ->
  Success (Execute e w req).1 = false /\
  Attempts (Execute e w req).1 = 1 + MaxRetries p /\
  Error (Execute e w req).1 = (tool_Execute w (MaxRetries p)).2 /\
  Output (Execute e w req).1 = (tool_Execute w (MaxRetries p)).1 /\
  Z.of_nat (invocations (Execute e w req).2) = 1 + MaxRetries p /\
  Z.of_nat (waits (Execute e w req).2) = MaxRetries p.
Proof. apply Execute_all_attempts_fail. Qed.

(** X3 on the sample tool when it times out at every attempt. *)
Lemma X3_witness :
  Attempts (Execute default_executor (flaky_world 10)
              (request (base_tool "fetch" false (Some timeout_policy))
                       some_input None)).1 = 1 + MaxRetries timeout_policy.
Proof.
  refine (proj1 (proj2
    (X3_exhausted_retries default_executor (flaky_world 10)
       (request (base_tool "fetch" false (Some timeout_policy)) some_input None)
       timeout_policy eq_refl eq_refl _ _))).
  - cbn. lia.
  - intros k Hk. exists (errorString "i/o timeout"). cbn in Hk. split.
    + cbn. destruct (k <? 10) eqn:Hlt; [done|]. apply Z.ltb_ge in Hlt. lia.
    + intros _. split; reflexivity.
Defined.

(** X4. A backoff wait cut short by the caller's context ends the call:
    the result is a failure carrying the context's error, the ordinal and
    the output of the attempt that preceded the wait, and the tool is not
    called again. *)
Theorem X4_cancelled_backoff_ends_call
    (e : Executor) (w : World) (req : ExecuteRequest) (k : Z) (cerr : error) :
  EvBackoff k ∈ (Execute e w req).2 ->
  backoff_wait w k = Some cerr ->
  Success (Execute e w req).1 = false /\
  Error (Execute e w req).1 = Some cerr /\
  Attempts (Execute e w req).1 = k + 1 /\
  Output (Execute e w req).1 = (tool_Execute w k).1 /\
  (forall j d, EvCall j d ∈ (Execute e w req).2 -> j <= k) /\
  (forall j, EvBackoff j ∈ (Execute e w req).2 -> j <= k).
Proof.
  intros Hin Hc. destruct (attempted e w req) eqn:Hatt.
  - destruct (Execute_attempted _ _ _ Hatt) as (st & tr & Hloop & Heq).
    rewrite Heq in *. cbn [fst snd] in *.
    rewrite elem_of_holding in Hin by done.
    destruct (loop_cancelled _ _ _ _ _ _ _ _ _ _ Hloop Hin Hc) as (-> & Hle).
    cbn. split_and!; try done.
    + intros j d Hj. rewrite elem_of_holding in Hj by done. by eapply Hle.
    + intros j Hj. rewrite elem_of_holding in Hj by done. by eapply Hle.
  - destruct (Execute_short_circuit _ _ _ Hatt) as (_ & _ & _ & Hno).
    by specialize (Hno _ Hin).
Qed.

(** X4 on a call interrupted during its first backoff wait. *)
Lemma X4_witness :
  Success (Execute default_executor interrupted_world
             (request (base_tool "fetch" false (Some timeout_policy))
                      some_input None)).1 = false /\
  Error (Execute default_executor interrupted_world
           (request (base_tool "fetch" false (Some timeout_policy))
                    some_input None)).1
    = Some (errorString "context canceled") /\
  Attempts (Execute default_executor interrupted_world
              (request (base_tool "fetch" false (Some timeout_policy))
                       some_input None)).1 = 0 + 1.
Proof.
  pose proof (X4_cancelled_backoff_ends_call default_executor interrupted_world
           (request (base_tool "fetch" false (Some timeout_policy))
                    some_input None)
           0 (errorString "context canceled")) as H.
  destruct H as (Hs & He & Ha & _).
  - vm_compute. do 3 apply list_elem_of_further. apply list_elem_of_here.
  - reflexivity.
  - exact (conj Hs (conj He Ha)).
Defined.

(** X5. Under a retry policy whose [MaxRetries] is negative, or is the
    largest [int] (so that [1 + MaxRetries] wraps around), a call that
    gets to the attempt loop never calls the tool and still reports a
    success, with [Attempts = 0], no output and no error. *)
Theorem X5_no_attempt_reported_as_success
    (e : Executor) (w : World) (req : ExecuteRequest) (p : RetryPolicy) :
  attempted e w req = true ->
  toolRetryPolicy (ReqTool req) = Some p ->
  - 2 ^ 63 <= MaxRetries p <= 2 ^ 63 - 1 ->
  MaxRetries p < 0 \/ MaxRetries p = 2 ^ 63 - 1 ->
  Execute e w req
  = ({| Success := true; Output := VNil; Error := None;
        Duration_ := Sub (now_end w) (now_start w);
        StartedAt := now_start w; FinishedAt := now_end w;
        Attempts := 0; LongRunning := longRunning (resolve e req) |},
     [EvAcquire; EvRelease]).
Proof.
  intros Hatt Hp Hrange Hneg.
  destruct (Execute_attempted _ _ _ Hatt) as (st & tr & Hloop & ->).
  rewrite resolve_retryPolicy, Hp in Hloop. unfold maxAttemptsOf in Hloop.
  assert (wrap64 (1 + MaxRetries p) <= 0) as Hle.
  { destruct Hneg as [Hneg | ->]; [rewrite wrap64_small; lia | done]. }
  replace (Z.to_nat _) with 0%nat in Hloop by lia.
  cbn in Hloop. by injection Hloop as <- <-.
Qed.

(** X5 on the sample tool with [MaxRetries = -1]. *)
Lemma X5_witness :
  Execute default_executor denied_world
    (request (base_tool "fetch" false (Some negative_policy)) some_input None)
  = ({| Success := true; Output := VNil; Error := None;
        Duration_ := 5000; StartedAt := 1000; FinishedAt := 6000;
        Attempts := 0; LongRunning := false |},
     [EvAcquire; EvRelease]).
Proof.
  apply (X5_no_attempt_reported_as_success default_executor denied_world
           (request (base_tool "fetch" false (Some negative_policy))
                    some_input None)
           negative_policy); [reflexivity | reflexivity | cbn; lia | left; cbn; lia].
Defined.

(** ** The admission pool never blocks for good *)








Lemma work_insert ts i t t' :
  ts !! i = Some t ->
  (work (<[i := t']> ts) + length (pending t)
   = work ts + length (pending t'))%nat.
Proof.
  revert i. induction ts as [|u ts IH]; intros i Hi; [done|].
  destruct i as [|i].
  - injection Hi as ->. cbn. lia.
  - change (<[S i := t']> (u :: ts)) with (u :: <[i := t']> ts).
    cbn [work]. specialize (IH i Hi). lia.
Qed.

Lemma thread_step_pops cap n t n' t' :
  thread_step cap n t = Some (n', t') ->
  length (pending t) = S (length (pending t')).
Proof.
  unfold thread_step. destruct (pending t) as [|ev rest]; [done|].
  destruct ev; [destruct (Z.of_nat n <? cap) | destruct n | | |];
    intros [= <- <-]; done.
Qed.

Lemma nsteps_work cap n s0 s :
  nsteps (step cap) n s0 s -> (n + work (threads s) = work (threads s0))%nat.
Proof.
  intros Hn. induction Hn as [|n x y z Hstep _ IH]; [done|].
  destruct Hstep as [x i t n' t' Hi Hstep]. cbn [threads] in IH.
  pose proof (work_insert _ _ _ t' Hi) as Hw.
  pose proof (thread_step_pops _ _ _ _ _ Hstep) as Hp. lia.
Qed.

(** A call performs at most the acquisition, the release and three
    events per attempt that its retry policy allows. *)
Lemma Execute_length e w req :
  (length (Execute e w req).2
   <= 2 + 3 * Z.to_nat (maxAttemptsOf (toolRetryPolicy (ReqTool req))))%nat.
Proof.
  unfold Execute. destruct (slot_wait w); [cbn; lia|].
  unfold executeHolding.
  destruct (ValidateInput _ _); [cbn; lia|].
  destruct (requiresApproval _ && negb _); [cbn; lia|].
  destruct (attemptLoop _ _ _ _ _ _) as [st tr] eqn:Hloop.
  rewrite resolve_retryPolicy in Hloop. apply loop_length in Hloop.
  cbn [snd length]. rewrite length_app. cbn [length]. lia.
Qed.

Lemma work_spawn e jobs :
  work (threads (spawn e jobs))
  = sum_list_with (fun job => length (Execute e job.1 job.2).2) jobs.
Proof.
  cbn [spawn threads]. induction jobs as [|job jobs IH]; [done|].
  cbn [fmap list_fmap work sum_list_with spawn_thread pending].
  change (list_fmap _ _ (spawn_thread e) jobs) with (spawn_thread e <$> jobs).
  by rewrite IH.
Qed.

(** X7. Every schedule of the calls submitted to an executor ends.  A
    call performs at most one acquisition of a slot, one release and,
    for each attempt its retry policy allows ([1 + MaxRetries], one
    without a policy), one call of the tool, its return and one backoff
    wait; so no interleaving of the calls takes more steps than the sum
    of [2 + 3 * maxAttempts] over the calls. *)
Theorem X7_schedules_are_bounded
    (e : Executor) (jobs : list (World * ExecuteRequest)) (n : nat) (s : Sys) :
  nsteps (step (semaphore_cap e)) n (spawn e jobs) s ->
  (n <= sum_list_with
          (fun job => 2 + 3 * Z.to_nat
                                (maxAttemptsOf (toolRetryPolicy (ReqTool job.2))))
          jobs)%nat.
Proof.
  intros Hn. apply nsteps_work in Hn. rewrite work_spawn in Hn.
  assert (sum_list_with (fun job => length (Execute e job.1 job.2).2) jobs
          <= sum_list_with
               (fun job => 2 + 3 * Z.to_nat
                  (maxAttemptsOf (toolRetryPolicy (ReqTool job.2)))) jobs)%nat
    as Hle.
  { clear Hn. induction jobs as [|job jobs IH]; [done|].
    cbn [sum_list_with]. pose proof (Execute_length e job.1 job.2). lia. }
  lia.
Qed.

(** X7 on the two steps that lead to the state where the single slot is
    taken and the first call is inside the tool. *)
Lemma X7_witness :
  (2 <= sum_list_with
          (fun job => 2 + 3 * Z.to_nat
                                (maxAttemptsOf (toolRetryPolicy (ReqTool job.2))))
          sample_jobs)%nat.
Proof.
  apply (X7_schedules_are_bounded single_slot_executor sample_jobs 2 sample_running).
  apply (nsteps_l _ _ _ sample_acquired).
  { exact (step_thread 1 (spawn single_slot_executor sample_jobs) 0
             (spawn_thread single_slot_executor
                (flaky_world 0, request plain_tool ∅ None))
             1
             {| pending := [EvCall 0 (Some (60 * Second)); EvReturn 0; EvRelease];
                held := 1; running := false |}
             eq_refl eq_refl). }
  apply nsteps_once.
  exact (step_thread 1 sample_acquired 0
           {| pending := [EvCall 0 (Some (60 * Second)); EvReturn 0; EvRelease];
              held := 1; running := false |}
           1
           {| pending := [EvReturn 0; EvRelease]; held := 1; running := true |}
           eq_refl eq_refl).
Defined.

(** ** The registry: registering, getting, removing *)

Lemma Get_cases r name x :
  Get r name = (x, true) <->
  (exists t, instances r !! name = Some t /\ x = Some t) \/
  (instances r !! name = None /\
   exists f, factories r !! name = Some f /\ f None = (x, None)).
Proof.
  unfold Get. destruct (instances r !! name) as [t|] eqn:Hi.
  - split.
    + intros [= <-]. left. by exists t.
    + intros [(t' & [= <-] & ->) | [? _]]; done.
  - destruct (factories r !! name) as [f|] eqn:Hf.
    + destruct (f None) as [y [err|]] eqn:Hfn.
      * split; [done|]. intros [(t & ? & _) | (_ & f' & [= <-] & Hy)]; [done|].
        congruence.
      * split.
        -- intros [= <-]. right. split; [done|]. by exists f.
        -- intros [(t & ? & _) | (_ & f' & [= <-] & Hy)]; [done|]. congruence.
    + split; [done|]. intros [(t & ? & _) | (_ & f' & ? & _)]; done.
Qed.

Lemma Create_result r name config :
  (Create r name config).1 =
  match factories r !! name with
  | Some factory => factory config
  | None =>
      match instances r !! name with
      | Some instance => (Some instance, None)
      | None => (None, Some (ToolNotFoundError name))
      end
  end.
Proof.
  unfold Create. destruct (factories r !! name); [done|].
  by destruct (instances r !! name).
Qed.

(** X8. Registering, getting and removing compose as a map would have
    it: an instance just registered is what [Get] returns under its name;
    a factory just registered is what [Create] calls; after [Remove]
    neither [Get] nor [Create] finds the name; registering or removing
    one name changes the answers for no other name, and registering an
    instance again under the same name replaces the earlier one. *)
Theorem X8_register_get_remove (r : Registry) :
  (forall t, Get (RegisterInstance t r) (Name t) = (Some t, true)) /\
  (forall n f cfg, (Create (RegisterFactory n f r) n cfg).1 = f cfg) /\
  (forall n cfg,
     Get (Remove n r) n = (None, false) /\
     (Create (Remove n r) n cfg).1 = (None, Some (ToolNotFoundError n))) /\
  (forall t m cfg, m <> Name t ->
     Get (RegisterInstance t r) m = Get r m /\
     (Create (RegisterInstance t r) m cfg).1 = (Create r m cfg).1) /\
  (forall n f m cfg, m <> n ->
     Get (RegisterFactory n f r) m = Get r m /\
     (Create (RegisterFactory n f r) m cfg).1 = (Create r m cfg).1) /\
  (forall n m cfg, m <> n ->
     Get (Remove n r) m = Get r m /\
     (Create (Remove n r) m cfg).1 = (Create r m cfg).1) /\
  (forall t t', Name t = Name t' ->
     RegisterInstance t' (RegisterInstance t r) = RegisterInstance t' r).
Proof.
  split_and!.
  - intros t. unfold Get, RegisterInstance. cbn. by rewrite lookup_insert_eq.
  - intros n f cfg. rewrite Create_result. unfold RegisterFactory. cbn.
    by rewrite lookup_insert_eq.
  - intros n cfg. rewrite Create_result. unfold Get, Remove. cbn.
    by rewrite !lookup_delete_eq.
  - intros t m cfg Hne. rewrite !Create_result.
    unfold Get, RegisterInstance. cbn.
    by rewrite lookup_insert_ne by congruence.
  - intros n f m cfg Hne. rewrite !Create_result.
    unfold Get, RegisterFactory. cbn.
    by rewrite lookup_insert_ne by congruence.
  - intros n m cfg Hne. rewrite !Create_result. unfold Get, Remove. cbn.
    by rewrite !lookup_delete_ne by congruence.
  - intros t t' Heq. unfold RegisterInstance. cbn.
    by rewrite Heq, insert_insert_eq.
Qed.

(** X9. [Get] and [Create] resolve a name in opposite orders.  [Get]
    returns the instance whenever one is registered, even beside a
    factory that [Create] would call instead; without an instance [Get]
    is [Create] with a nil configuration whose error is dropped.  So
    [Get] answers false exactly when no instance is registered and the
    factory is missing or fails on a nil configuration. *)
Theorem X9_get_prefers_instance (r : Registry) (name : string) :
  (forall t f cfg,
     instances r !! name = Some t -> factories r !! name = Some f ->
     Get r name = (Some t, true) /\ (Create r name cfg).1 = f cfg) /\
  (forall t, instances r !! name = Some t -> Get r name = (Some t, true)) /\
  (instances r !! name = None ->
     Get r name = match (Create r name None).1 with
                  | (t, None) => (t, true)
                  | (_, Some _) => (None, false)
                  end) /\
  ((Get r name).2 = false <->
   instances r !! name = None /\
   (factories r !! name = None \/
    exists f, factories r !! name = Some f /\ is_Some (f None).2)) /\
  ((Get r name).2 = false -> (Get r name).1 = None).
Proof.
  rewrite Create_result. setoid_rewrite Create_result. unfold Get. split_and!.
  - intros t f cfg -> ->. done.
  - intros t ->. done.
  - intros ->. destruct (factories r !! name) as [f|]; [|done].
    by destruct (f None) as [t [err|]].
  - destruct (instances r !! name) as [t|].
    + split; [done | by intros [? _]].
    + destruct (factories r !! name) as [f|] eqn:Hf.
      * destruct (f None) as [t [err|]] eqn:Hfn; cbn.
        -- split; [|done]. intros _. split; [done|]. right. exists f.
           rewrite Hfn. by eauto.
        -- split; [done|]. intros [_ [? | (f' & [= <-] & Hs)]]; [done|].
           rewrite Hfn in Hs. by destruct Hs.
      * split; [|done]. intros _. split; [done | by left].
  - destruct (instances r !! name) as [t|]; [done|].
    destruct (factories r !! name) as [f|]; [|done].
    by destruct (f None) as [t [err|]].
Qed.

(** X9 on the sample registry: the clock factory needs a configuration,
    so [Create] makes a clock from one while [Get] finds none. *)
Lemma X9_witness :
  Get sample_registry "Clock"
  = match (Create sample_registry "Clock" None).1 with
    | (t, None) => (t, true)
    | (_, Some _) => (None, false)
    end.
Proof.
  apply (proj1 (proj2 (proj2 (X9_get_prefers_instance sample_registry "Clock")))).
  reflexivity.
Defined.

Example Get_clock_fails :
  Get sample_registry "Clock" = (None, false) /\
  (Create sample_registry "Clock" (Some ∅)).1
    = (Some (priority_tool "Clock" 1), None).
Proof. split; reflexivity. Qed.

(** ** The registry: listing and finding *)

Section Ranging.
Context {V : Type} (range : list (string * V) -> list (string * V))
        (m : gmap string V).
Hypothesis range_perm : range (map_to_list m) ≡ₚ map_to_list m.

Lemma elem_of_ranged n v : (n, v) ∈ ranged range m <-> m !! n = Some v.
Proof. unfold ranged. by rewrite range_perm, elem_of_map_to_list. Qed.

Lemma elem_of_ranged_names n : n ∈ (ranged range m).*1 <-> is_Some (m !! n).
Proof.
  rewrite list_elem_of_fmap. split.
  - intros ([n' v] & -> & Hin). apply elem_of_ranged in Hin. by eexists.
  - intros [v Hv]. exists (n, v). split; [done|]. by apply elem_of_ranged.
Qed.

Lemma length_ranged : length (ranged range m) = size m.
Proof. unfold ranged. by rewrite range_perm, length_map_to_list. Qed.
End Ranging.

Lemma length_omap_le {A B} (f : A -> option B) (l : list A) :
  (length (omap f l) <= length l)%nat.
Proof.
  induction l as [|x l IH]; cbn; [done|]. destruct (f x); cbn; lia.
Qed.

(** X10. Whatever the order in which the maps are ranged over, [List]
    returns exactly the tools that [Get] returns for some name: every
    registered instance, and for every name with a factory but no
    instance, what the factory makes from a nil configuration when it
    reports no error.  It has at least as many entries as there are
    instances and at most as many as there are registrations. *)
Theorem X10_list_holds_what_get_returns
    (r : Registry)
    (range_instances : list (string * Tool) -> list (string * Tool))
    (range_factories : list (string * ToolFactory) -> list (string * ToolFactory)) :
  range_instances (map_to_list (instances r)) ≡ₚ map_to_list (instances r) ->
  range_factories (map_to_list (factories r)) ≡ₚ map_to_list (factories r) ->
  (forall x, x ∈ List r range_instances range_factories <->
             exists name, Get r name = (x, true)) /\
  (forall n t, instances r !! n = Some t ->
     Some t ∈ List r range_instances range_factories) /\
  (size (instances r) <= length (List r range_instances range_factories)
   <= size (instances r) + size (factories r))%nat.
Proof.
  intros Hi Hf.
  assert (forall x, x ∈ List r range_instances range_factories <->
                    exists name, Get r name = (x, true)) as Hmem.
  { intros x. unfold List. cbv zeta.
    rewrite elem_of_app, list_elem_of_fmap, list_elem_of_omap. split.
    - intros [([n t] & -> & Hin) | ([n f] & Hin & Hlf)].
      + apply (elem_of_ranged _ _ Hi) in Hin. exists n. apply Get_cases.
        left. by exists t.
      + apply (elem_of_ranged _ _ Hf) in Hin. unfold list_factory in Hlf.
        cbn [fst snd] in Hlf. case_bool_decide as Hseen; [done|].
        rewrite (elem_of_ranged_names _ _ Hi) in Hseen.
        exists n. apply Get_cases. right. split.
        * destruct (instances r !! n); [|done]. destruct Hseen. by eexists.
        * exists f. split; [done|].
          destruct (f None) as [y [err|]]; [done|]. by injection Hlf as ->.
    - intros [name [(t & Ht & ->) | (Hnone & f & Hfn & Hy)]%Get_cases].
      + left. exists (name, t). split; [done|]. by apply (elem_of_ranged _ _ Hi).
      + right. exists (name, f). split; [by apply (elem_of_ranged _ _ Hf)|].
        unfold list_factory. cbn [fst snd].
        rewrite bool_decide_eq_false_2.
        * by rewrite Hy.
        * rewrite (elem_of_ranged_names _ _ Hi), Hnone. by intros [? ?]. }
  split; [done|]. split.
  - intros n t Ht. apply Hmem. exists n. apply Get_cases. left. by exists t.
  - unfold List. cbv zeta. rewrite length_app, length_fmap.
    rewrite (length_ranged _ _ Hi).
    pose proof (length_omap_le
      (list_factory (ranged range_instances (instances r)).*1)
      (ranged range_factories (factories r))) as Hle.
    rewrite (length_ranged _ _ Hf) in Hle. lia.
Qed.

(** X10 on the sample registry, both maps ranged over backwards. *)
Lemma X10_witness :
  Some echo_tool ∈ List sample_registry reverse reverse.
Proof.
  refine (proj1 (proj2 (X10_list_holds_what_get_returns sample_registry
                          reverse reverse _ _)) "echo" echo_tool _).
  - apply reverse_Permutation.
  - apply reverse_Permutation.
  - reflexivity.
Defined.

Lemma Get_neither r name :
  instances r !! name = None -> factories r !! name = None ->
  Get r name = (None, false).
Proof.
  intros Hi Hf. destruct (Get r name) as [x [|]] eqn:Hget.
  - apply Get_cases in Hget as [(t & Ht & _) | (_ & f & Hf' & _)]; [congruence|].
    exfalso. cut (Some f = @None ToolFactory); [done|].
    rewrite <- Hf'. exact Hf.
  - f_equal. revert Hget. unfold Get. rewrite Hi.
    destruct (factories r !! name) as [f|]; [|congruence].
    destruct (f None) as [y [err|]]; congruence.
Qed.

Section Finding.
Variable ToLower : string -> string.

Lemma find_instance_Some target entries t :
  find_instance ToLower target entries = Some t ->
  exists n, (n, t) ∈ entries /\ ToLower n = target.
Proof.
  induction entries as [|[n u] rest IH]; cbn; [done|].
  case_bool_decide as Hn.
  - intros [= <-]. exists n. split; [apply list_elem_of_here | done].
  - intros (n' & Hin & Hl)%IH. exists n'. split; [by apply list_elem_of_further | done].
Qed.

Lemma find_instance_None target entries :
  find_instance ToLower target entries = None <->
  forall n t, (n, t) ∈ entries -> ToLower n <> target.
Proof.
  induction entries as [|[n u] rest IH]; cbn.
  - split; [|done]. intros _ n t Hin. by apply elem_of_nil in Hin.
  - case_bool_decide as Hn.
    + split; [done|]. intros H. destruct (H n u); [apply list_elem_of_here | done].
    + rewrite IH. split.
      * intros H n' t [[= -> ->] | Hin]%elem_of_cons; [done | by eapply H].
      * intros H n' t Hin. eapply H. by apply list_elem_of_further.
Qed.

Lemma find_factory_Some target entries t :
  find_factory ToLower target entries = Some t ->
  exists n f, (n, f) ∈ entries /\ ToLower n = target /\ f None = (Some t, None).
Proof.
  induction entries as [|[n f] rest IH]; cbn; [done|].
  case_bool_decide as Hn.
  - destruct (f None) as [y [err|]] eqn:Hfn.
    + intros (n' & f' & Hin & Hl)%IH. exists n', f'.
      split; [by apply list_elem_of_further | done].
    + intros ->. exists n, f. split; [apply list_elem_of_here | done].
  - intros (n' & f' & Hin & Hl)%IH. exists n', f'.
    split; [by apply list_elem_of_further | done].
Qed.

Lemma find_factory_None target entries :
  (forall n f, (n, f) ∈ entries -> ToLower n <> target) ->
  find_factory ToLower target entries = None.
Proof.
  induction entries as [|[n f] rest IH]; cbn; [done|]. intros H.
  rewrite bool_decide_eq_false_2 by (eapply H, list_elem_of_here).
  apply IH. intros n' f' Hin. eapply H. by apply list_elem_of_further.
Qed.

(** X11. [Find] looks a name up exactly first and without regard to
    case after.  A tool it returns is registered, as an instance or as
    what a factory makes from a nil configuration, under a name equal to
    the one asked for up to case.  When the name has no registration of
    its own, an instance registered under a name equal up to case is
    found, whatever the order in which the maps are ranged over; and
    when no registered name is equal to it up to case nothing is found. *)
Theorem X11_find_ignores_case
    (r : Registry)
    (range_instances : list (string * Tool) -> list (string * Tool))
    (range_factories : list (string * ToolFactory) -> list (string * ToolFactory))
    (name : string) :
  range_instances (map_to_list (instances r)) ≡ₚ map_to_list (instances r) ->
  range_factories (map_to_list (factories r)) ≡ₚ map_to_list (factories r) ->
  (forall t, instances r !! name = Some t ->
     Registry_Find ToLower r range_instances range_factories name = Some t) /\
  (forall t,
     Registry_Find ToLower r range_instances range_factories name = Some t ->
     exists n, ToLower n = ToLower name /\
       (instances r !! n = Some t \/
        exists f, factories r !! n = Some f /\ f None = (Some t, None))) /\
  (instances r !! name = None -> factories r !! name = None ->
   (exists n t, instances r !! n = Some t /\ ToLower n = ToLower name) ->
   exists n t, instances r !! n = Some t /\ ToLower n = ToLower name /\
     Registry_Find ToLower r range_instances range_factories name = Some t) /\
  ((forall n, is_Some (instances r !! n) \/ is_Some (factories r !! n) ->
              ToLower n <> ToLower name) ->
   Registry_Find ToLower r range_instances range_factories name = None).
Proof.
  intros Hi Hf. unfold Registry_Find. split_and!.
  - intros t Ht. unfold Get. by rewrite Ht.
  - intros t. destruct (Get r name) as [x [|]] eqn:Hget.
    + intros ->. apply Get_cases in Hget as [(t' & Ht & [= <-]) | (_ & f & Hfn & Hy)].
      * exists name. split; [done | by left].
      * exists name. split; [done|]. right. by exists f.
    + cbv zeta.
      destruct (find_instance _ _ _) as [u|] eqn:Hfi.
      * intros [= <-]. apply find_instance_Some in Hfi as (n & Hin & Hl).
        apply (elem_of_ranged _ _ Hi) in Hin. exists n. split; [done | by left].
      * intros (n & f & Hin & Hl & Hy)%find_factory_Some.
        apply (elem_of_ranged _ _ Hf) in Hin. exists n. split; [done|].
        right. by exists f.
  - intros Hni Hnf (n & t & Ht & Hl).
    assert (Get r name = (None, false)) as Hget.
    { by apply Get_neither. }
    destruct (find_instance ToLower (ToLower name)
                (ranged range_instances (instances r))) as [u|] eqn:Hfi.
    + destruct (find_instance_Some _ _ _ Hfi) as (n' & Hin & Hl').
      apply (elem_of_ranged _ _ Hi) in Hin. exists n', u.
      split_and!; [done..|]. by rewrite Hget.
    + exfalso. rewrite find_instance_None in Hfi.
      eapply (Hfi n t); [|done]. by apply (elem_of_ranged _ _ Hi).
  - intros Hnone.
    assert (Get r name = (None, false)) as ->.
    { apply Get_neither.
      - destruct (instances r !! name) eqn:Hin; [|done].
        destruct (Hnone name); [left; by eexists | done].
      - destruct (factories r !! name) eqn:Hfn; [|done].
        destruct (Hnone name); [right; by eexists | done]. }
    cbv zeta.
    replace (find_instance _ _ _) with (@None Tool).
    + apply find_factory_None. intros n f Hin%(elem_of_ranged _ _ Hf).
      apply Hnone. right. by eexists.
    + symmetry. apply find_instance_None. intros n t Hin%(elem_of_ranged _ _ Hi).
      apply Hnone. left. by eexists.
Qed.
End Finding.

(** X11 on the sample registry: ["ECHO"] finds the instance [echo]. *)
Lemma X11_witness :
  exists n t, instances sample_registry !! n = Some t /\
    ToLowerASCII n = ToLowerASCII "ECHO" /\
    Registry_Find ToLowerASCII sample_registry reverse reverse "ECHO" = Some t.
Proof.
  refine (proj1 (proj2 (proj2 (X11_find_ignores_case ToLowerASCII
            sample_registry reverse reverse "ECHO" _ _))) _ _ _).
  - apply reverse_Permutation.
  - apply reverse_Permutation.
  - reflexivity.
  - reflexivity.
  - exists "echo", echo_tool. split; reflexivity.
Defined.

Example Find_ECHO :
  Registry_Find ToLowerASCII sample_registry reverse reverse "ECHO"
  = Some echo_tool.
Proof. reflexivity. Qed.

(** ** Tools made by [NewFunc] under the executor *)

Lemma NewFunc_ValidateInput name desc f input :
  ValidateInput (Func_Tool (NewFunc name desc f)) input
  = match input !! "input" with
    | Some _ => None
    | None => Some (errorString "missing required field: input")
    end.
Proof.
  unfold ValidateInput, Func_Tool, NewFunc, BaseTool_Tool.
  cbn [InputSchema base SchemaVal with_schema].
  assert (required_fields freeform_schema = ["input"]) as -> by reflexivity.
  cbn [check_required]. by destruct (input !! "input").
Qed.

(** A call of a [NewFunc] tool with its field gets to the attempt loop;
    its attempts run under 30 seconds, are at most four, and every error
    is retryable. *)
Lemma NewFunc_attempted e w name desc f input tc :
  slot_wait w = None -> is_Some (input !! "input") ->
  attempted e w {| ReqTool := Func_Tool (NewFunc name desc f); Input := input;
                   Context := tc; TimeoutOverride := 0 |} = true.
Proof.
  intros Hslot [v Hv]. unfold attempted. cbn [ReqTool Input].
  rewrite Hslot, NewFunc_ValidateInput, Hv. done.
Qed.

Lemma NewFunc_attempted_override e w name desc f input tc override :
  slot_wait w = None -> is_Some (input !! "input") ->
  attempted e w {| ReqTool := Func_Tool (NewFunc name desc f); Input := input;
                   Context := tc; TimeoutOverride := override |} = true.
Proof.
  intros Hslot [v Hv]. unfold attempted. cbn [ReqTool Input].
  rewrite Hslot, NewFunc_ValidateInput, Hv. done.
Qed.

(** X12. A tool made by [NewFunc] and left at its defaults requires the
    field [input] and nothing else.  A call whose context is done while
    it waits for a slot fails with the context's error, whatever its
    input.  A call that gets its slot fails without the field before the
    tool is called, with the error naming the field; with the field it
    gets to the attempt loop, where the tool is called at most four
    times, every error is taken as retryable, and each attempt runs under
    a deadline of 30 seconds, or of the request's timeout override when
    that is positive, whatever the executor's default timeout. *)
Theorem X12_NewFunc_defaults
    (e : Executor) (w : World) (name desc : string) (f : option Callable)
    (input : gmap string Value) (tc : option ToolContext)
    (override : Duration) :
  let req := {| ReqTool := Func_Tool (NewFunc name desc f); Input := input;
                Context := tc; TimeoutOverride := override |} in
  (forall cerr, slot_wait w = Some cerr ->
     Execute e w req
     = ({| Success := false; Output := VNil; Error := Some cerr;
           Duration_ := 0; StartedAt := now_start w; FinishedAt := now_end w;
           Attempts := 0; LongRunning := false |}, [])) /\
  (slot_wait w = None -> input !! "input" = None ->
     Execute e w req
     = ({| Success := false; Output := VNil;
           Error := Some (errorString "missing required field: input");
           Duration_ := 0; StartedAt := now_start w; FinishedAt := now_end w;
           Attempts := 0; LongRunning := false |},
        [EvAcquire; EvRelease])) /\
  (slot_wait w = None -> is_Some (input !! "input") ->
     attempted e w req = true /\
     (forall k d, EvCall k d ∈ (Execute e w req).2 ->
        d = Some (if 0 <? override then override else 30 * Second) /\
        0 <= k < 4) /\
     (invocations (Execute e w req).2 <= 4)%nat /\
     (forall err, isRetryable err (retryPolicy (resolve e req)) = true)).
Proof.
  cbv zeta. split_and!.
  - intros cerr Hslot. unfold Execute. by rewrite Hslot.
  - intros Hslot Hmiss. unfold Execute, executeHolding. rewrite Hslot.
    cbn [ReqTool Input]. rewrite NewFunc_ValidateInput, Hmiss. done.
  - intros Hslot Hin.
    pose proof (NewFunc_attempted_override e w name desc f input tc override
                  Hslot Hin) as Hatt.
    split_and!; [done| | |done].
    + intros k d Hcall. split.
      * apply Execute_call_deadline in Hcall. rewrite Hcall.
        unfold resolve, attempt_deadline. cbn.
        by destruct (0 <? override) eqn:Hov; [rewrite Hov|].
      * destruct (Execute_attempted _ _ _ Hatt) as (st & tr & Hloop & Heq).
        rewrite Heq in Hcall. cbn [snd] in Hcall.
        rewrite elem_of_holding in Hcall by done.
        apply (loop_index_range _ _ _ _ _ _ _ _ _ k Hloop Hcall eq_refl).
    + pose proof (Execute_invocations e w
        {| ReqTool := Func_Tool (NewFunc name desc f); Input := input;
           Context := tc; TimeoutOverride := override |}) as [Hmax _].
      cbn in Hmax. change (wrap64 (1 + 3)) with 4 in Hmax. lia.
Qed.

(** X12 on a freeform tool called with its field and an override of
    five seconds. *)
Lemma X12_witness :
  attempted (NewExecutor {| MaxConcurrency := 2; DefaultTimeout := 10 * Second |})
    (flaky_world 0)
    {| ReqTool := Func_Tool (NewFunc "note" "takes a note" None);
       Input := some_input; Context := None;
       TimeoutOverride := 5 * Second |} = true.
Proof.
  refine (proj1 (proj2 (proj2 (X12_NewFunc_defaults
            (NewExecutor {| MaxConcurrency := 2; DefaultTimeout := 10 * Second |})
            (flaky_world 0) "note" "takes a note" None some_input None
            (5 * Second))) eq_refl _)).
  by eexists.
Defined.

(** X13. A tool made by [NewFunc] without a function, left at its
    defaults, fails every attempt with the same error, and the executor
    retries it all the same: when no backoff wait is cut short the tool
    is called four times and the result is a failure with
    [Attempts = 4] that says the tool has no implementation. *)
Theorem X13_missing_implementation_is_retried
    (e : Executor) (w : World) (name desc : string)
    (input : gmap string Value) (tc : option ToolContext) :
  let req := {| ReqTool := Func_Tool (NewFunc name desc None); Input := input;
                Context := tc; TimeoutOverride := 0 |} in
  slot_wait w = None ->
  is_Some (input !! "input") ->
  runs_Func w (NewFunc name desc None) req ->
  (forall k, 0 <= k < 3 -> backoff_wait w k = None) ->
  Success (Execute e w req).1 = false /\
  Attempts (Execute e w req).1 = 4 /\
  Error (Execute e w req).1
    = Some (errorString ("tool " +:+ name +:+ " has no implementation")) /\
  invocations (Execute e w req).2 = 4%nat /\
  waits (Execute e w req).2 = 3%nat.
Proof.
  cbv zeta. intros Hslot Hin Hruns Hwaits.
  pose proof (NewFunc_attempted e w name desc None input tc Hslot Hin) as Hatt.
  destruct (Execute_all_attempts_fail e w _ DefaultRetryPolicy Hatt eq_refl)
    as (Hs & Ha & He & _ & Hi & Hb).
  { cbn. lia. }
  { intros k Hk. rewrite Hruns. eexists. split; [done|]. intros Hlt.
    split; [done|]. apply Hwaits. cbn in Hlt. lia. }
  rewrite Hruns in He. cbn in Ha, He, Hi, Hb.
  split_and!; try done; lia.
Qed.

(** X13 on the freeform tool [note]. *)
Lemma X13_witness :
  Attempts (Execute default_executor note_world
              {| ReqTool := Func_Tool (NewFunc "note" "takes a note" None);
                 Input := some_input; Context := None;
                 TimeoutOverride := 0 |}).1 = 4.
Proof.
  refine (proj1 (proj2 (X13_missing_implementation_is_retried default_executor
            note_world "note" "takes a note" some_input None eq_refl _ _ _))).
  - by eexists.
  - intros k. reflexivity.
  - intros k _. reflexivity.
Defined.

(** ** Listing and finding tools *)

Lemma append_assoc (a b c : string) : (a +:+ b) +:+ c = a +:+ (b +:+ c).
Proof.
  induction a as [|x a IH]; [done|]. rewrite !append_cons_l. by rewrite IH.
Qed.

Lemma Join_cons x rest sep :
  rest <> [] -> Join (x :: rest) sep = x +:+ sep +:+ Join rest sep.
Proof. by destruct rest. Qed.

Lemma Join_app a b sep :
  a <> [] -> b <> [] -> Join (a ++ b) sep = Join a sep +:+ sep +:+ Join b sep.
Proof.
  intros Ha Hb. induction a as [|x a IH]; [done|].
  destruct a as [|y a].
  - cbn [app]. by rewrite Join_cons.
  - change ((x :: y :: a) ++ b) with (x :: ((y :: a) ++ b)).
    rewrite Join_cons by done. rewrite IH by done.
    rewrite (Join_cons x (y :: a)) by done. by rewrite !append_assoc.
Qed.

(** X14. [Format] answers the placeholder text exactly for the empty
    list; a single tool is rendered as its line, and the rendering of a
    list made of two non-empty parts is the renderings of the parts with
    a newline in between. *)
Theorem X14_Format_composes (tools more : list Tool) (t : Tool) :
  (Format tools = "no tools available" <-> tools = []) /\
  Format [t] = "- " +:+ Name t +:+ ": " +:+ Description t /\
  (tools <> [] -> more <> [] ->
   Format (tools ++ more) = Format tools +:+ newline +:+ Format more).
Proof.
  split_and!.
  - split; [|by intros ->]. destruct tools as [|u rest]; [done|].
    unfold Format. cbn [fmap list_fmap]. destruct rest as [|v rest].
    + cbn. unfold format_line. discriminate.
    + rewrite Join_cons by done. unfold format_line at 1. discriminate.
  - done.
  - intros Ha Hb. unfold Format.
    destruct tools as [|u rest]; [done|]. destruct more as [|v more']; [done|].
    change (match (u :: rest) ++ v :: more' with [] => _ | _ :: _ => ?x end)
      with x.
    rewrite fmap_app. by apply Join_app.
Qed.

(** X14 on two sample tools. *)
Lemma X14_witness :
  Format ([plain_tool] ++ [echo_tool])
  = Format [plain_tool] +:+ newline +:+ Format [echo_tool].
Proof.
  apply (proj2 (proj2 (X14_Format_composes [plain_tool] [echo_tool] plain_tool)));
    discriminate.
Defined.

(** X15. [Find] returns the first tool of the list whose name equals the
    name asked for up to case, and nil exactly when there is none. *)
Theorem X15_Find_first_match
    (EqualFold : string -> string -> bool) (tools : list Tool) (name : string) :
  (Find EqualFold tools name = None <->
   forall t, t ∈ tools -> EqualFold (Name t) name = false) /\
  (forall t, Find EqualFold tools name = Some t <->
     exists before after,
       tools = before ++ t :: after /\
       EqualFold (Name t) name = true /\
       forall u, u ∈ before -> EqualFold (Name u) name = false).
Proof.
  induction tools as [|u rest [IHn IHs]]; cbn [Find].
  - split.
    + split; [|done]. intros _ t Ht. by apply elem_of_nil in Ht.
    + intros t. split; [done|]. intros (b & a & Heq & _). by destruct b.
  - destruct (EqualFold (Name u) name) eqn:Hu.
    + split.
      * split; [done|]. intros H. specialize (H u (list_elem_of_here _ _)).
        congruence.
      * intros t. split.
        -- intros [= <-]. exists [], rest. split_and!; [done..|].
           intros v Hv. by apply elem_of_nil in Hv.
        -- intros (b & a & Heq & Ht & Hb). destruct b as [|v b].
           ++ by injection Heq as ->.
           ++ injection Heq as -> _.
              specialize (Hb v (list_elem_of_here _ _)). congruence.
    + split.
      * rewrite IHn. split.
        -- intros H t [-> | Ht]%elem_of_cons; [done | by apply H].
        -- intros H t Ht. apply H. by apply list_elem_of_further.
      * intros t. rewrite IHs. split.
        -- intros (b & a & -> & Ht & Hb). exists (u :: b), a.
           split_and!; [done..|].
           intros v [-> | Hv]%elem_of_cons; [done | by apply Hb].
        -- intros (b & a & Heq & Ht & Hb). destruct b as [|v b].
           ++ injection Heq as -> _. congruence.
           ++ injection Heq as -> ->. exists b, a. split_and!; [done..|].
              intros w Hw. apply Hb. by apply list_elem_of_further.
Qed.

Example Find_ignores_case :
  Find EqualFoldASCII [plain_tool; echo_tool] "ECHO" = Some echo_tool /\
  Find EqualFoldASCII [plain_tool; echo_tool] "clock" = None.
Proof. split; reflexivity. Qed.

(** ** Tool contexts *)

Lemma provided_keeps opt tc :
  provided opt ->
  Metadata (opt tc) = Metadata tc /\ ExecutionID (opt tc) = ExecutionID tc.
Proof. by intros []. Qed.

Lemma NewToolContext_snoc opts opt :
  NewToolContext (opts ++ [opt]) = opt (NewToolContext opts).
Proof. unfold NewToolContext. by rewrite foldl_snoc. Qed.

(** X16. A context made by [NewToolContext] from the options the package
    provides has an empty metadata map and an empty execution
    identifier, so it grants no approval; among several options that set
    the same field the last one wins, and an option leaves the fields of
    the other options alone. *)
Theorem X16_NewToolContext_options (opts : list CtxOption) :
  Forall provided opts ->
  Metadata (NewToolContext opts) = ∅ /\
  ExecutionID (NewToolContext opts) = "" /\
  approved (Some (NewToolContext opts)) = false /\
  (forall id,
     AgentID (NewToolContext (opts ++ [WithAgentID id])) = id /\
     SessionID (NewToolContext (opts ++ [WithAgentID id]))
       = SessionID (NewToolContext opts)) /\
  (forall id,
     SessionID (NewToolContext (opts ++ [WithSessionID id])) = id /\
     AgentID (NewToolContext (opts ++ [WithSessionID id]))
       = AgentID (NewToolContext opts)).
Proof.
  intros Hopts.
  assert (Metadata (NewToolContext opts) = ∅ /\
          ExecutionID (NewToolContext opts) = "") as [Hm He].
  { induction opts as [|opt opts IH] using rev_ind; [done|].
    apply Forall_app in Hopts as [Hopts Hopt].
    apply Forall_cons in Hopt as [Hopt _].
    rewrite NewToolContext_snoc.
    destruct (provided_keeps opt (NewToolContext opts) Hopt) as [-> ->].
    by apply IH. }
  split_and!; [done | done | | |].
  - unfold approved. by rewrite Hm.
  - intros id. by rewrite NewToolContext_snoc.
  - intros id. by rewrite NewToolContext_snoc.
Qed.

(** X16 on a context given two agent identifiers and a logger. *)
Lemma X16_witness :
  approved (Some (NewToolContext [WithAgentID "a1"; WithLogger; WithAgentID "a2"]))
  = false.
Proof.
  refine (proj1 (proj2 (proj2 (X16_NewToolContext_options
            [WithAgentID "a1"; WithLogger; WithAgentID "a2"] _)))).
  repeat constructor.
Defined.

(** ** The setters of [Func] under the executor *)

Lemma unapproved_call_stops e w req :
  toolRequiresApproval (ReqTool req) = true ->
  approved (Context req) = false ->
  Success (Execute e w req).1 = false /\
  Attempts (Execute e w req).1 = 0 /\
  invocations (Execute e w req).2 = 0%nat.
Proof.
  intros Hreq Happ. unfold Execute, executeHolding.
  destruct (slot_wait w); [done|].
  destruct (ValidateInput _ _); [done|].
  by rewrite resolve_requiresApproval, Hreq, Happ.
Qed.

(** X17. What a setter of [Func] stores is what the executor acts on,
    whatever the tool was before.  After [WithRetry(nil)] the tool is
    called at most once; after [WithTimeout(d)] with [d] positive every
    call without an override runs under the deadline [d], whatever the
    executor's default; after [WithApproval(true)] a call whose context
    does not carry the approval ends without the tool being called and
    with [Attempts = 0]; after [WithSchema(nil)] every input passes
    validation. *)
Theorem X17_setters_reach_the_executor
    (e : Executor) (w : World) (f : Func)
    (input : gmap string Value) (tc : option ToolContext) :
  let call g := Execute e w {| ReqTool := Func_Tool g; Input := input;
                               Context := tc; TimeoutOverride := 0 |} in
  (invocations (call (WithRetry None f)).2 <= 1)%nat /\
  (forall d k dl, 0 < d ->
     EvCall k dl ∈ (call (WithTimeout d f)).2 -> dl = Some d) /\
  (~ approval_granted tc ->
     Success (call (WithApproval true f)).1 = false /\
     Attempts (call (WithApproval true f)).1 = 0 /\
     invocations (call (WithApproval true f)).2 = 0%nat) /\
  ValidateInput (Func_Tool (WithSchema None f)) input = None.
Proof.
  cbv zeta. split_and!.
  - pose proof (Execute_invocations e w
      {| ReqTool := Func_Tool (WithRetry None f); Input := input;
         Context := tc; TimeoutOverride := 0 |}) as [Hmax _].
    cbn in Hmax. lia.
  - intros d k dl Hd Hcall. apply Execute_call_deadline in Hcall.
    rewrite Hcall. unfold resolve, attempt_deadline. cbn.
    apply Z.ltb_lt in Hd as Hd'. rewrite Hd'.
    replace (d =? 0) with false by (symmetry; apply Z.eqb_neq; lia).
    rewrite andb_false_r. cbn. by rewrite Hd'.
  - intros Hno. apply unapproved_call_stops; [done|]. cbn [Context].
    destruct (approved tc) eqn:Happ; [|done].
    by apply approved_spec in Happ.
  - done.
Qed.

(** X17 on the freeform tool [note], made to require approval and called
    without a context. *)
Lemma X17_witness :
  invocations
    (Execute default_executor (flaky_world 0)
       {| ReqTool := Func_Tool (WithApproval true
                                  (NewFunc "note" "takes a note" None));
          Input := some_input; Context := None; TimeoutOverride := 0 |}).2
  = 0%nat.
Proof.
  refine (proj2 (proj2 (proj1 (proj2 (proj2 (X17_setters_reach_the_executor
            default_executor (flaky_world 0)
            (NewFunc "note" "takes a note" None) some_input None))) _))).
  intros (c & Hc & _). discriminate.
Defined.
